(** * process_translocations.py: fusion events to translocations.json

    A shallow embedding of [scripts/process_translocations.py] and the
    properties its specification states about it.

    Python [str] values are modelled as [string] over the code points
    below 256; [dict] and [defaultdict] as [gmap], [set] as [gset],
    [int] as [Z] where a subtraction is involved and as [nat] where the
    value is a [len].  The script's control effects ([sys.exit], an
    uncaught exception, [print]) are threaded through a small monad. *)

From Stdlib Require Import Ascii String.
From stdpp Require Import base option list strings gmap fin_maps fin_sets sorting pretty.


(** ** Python string methods *)

Module PyStr.

(** [str.isspace] on one code point below 256: TAB..CR, FS..US, SPACE,
    NEL and NBSP. *)
Definition isspace (c : ascii) : bool :=
  let n := N_of_ascii c in
  ((9 <=? n) && (n <=? 13) || (28 <=? n) && (n <=? 32)
   || (n =? 133) || (n =? 160))%N.

(** [str.lower] on one code point below 256: A..Z and the upper-case
    letters of the Latin-1 block move up by 32. *)
Definition lower_char (c : ascii) : ascii :=
  let n := N_of_ascii c in
  if ((65 <=? n) && (n <=? 90) || (192 <=? n) && (n <=? 214)
      || (216 <=? n) && (n <=? 222))%N
  then ascii_of_N (n + 32) else c.

Fixpoint lower (s : string) : string :=
  match s with
  | "" => ""
  | String c s' => String (lower_char c) (lower s')
  end.

(** [s.replace(c, "")] for a one-character [c]. *)
Fixpoint remove_char (c : ascii) (s : string) : string :=
  match s with
  | "" => ""
  | String d s' =>
      if Ascii.eqb c d then remove_char c s' else String d (remove_char c s')
  end.

Fixpoint lstrip (s : string) : string :=
  match s with
  | "" => ""
  | String c s' => if isspace c then lstrip s' else s
  end.

Fixpoint rstrip (s : string) : string :=
  match s with
  | "" => ""
  | String c s' =>
      match rstrip s' with
      | "" => if isspace c then "" else String c ""
      | r => String c r
      end
  end.

(** [s.strip()] *)
Definition strip (s : string) : string := rstrip (lstrip s).

Fixpoint drop (n : nat) (s : string) : string :=
  match n, s with
  | O, _ => s
  | S _, "" => ""
  | S n', String _ s' => drop n' s'
  end.

(** [s.partition(sep)] without the middle component: the text before
    and after the first occurrence of [sep], or [None] when [sep] does
    not occur. *)
Fixpoint partition (sep s : string) : option (string * string) :=
  if String.prefix sep s then Some ("", drop (String.length sep) s)
  else match s with
       | "" => None
       | String c s' =>
           match partition sep s' with
           | Some (a, b) => Some (String c a, b)
           | None => None
           end
       end.

(** [sep in s] *)
Definition contains (sep s : string) : bool :=
  if partition sep s is Some _ then true else false.

Fixpoint split_upto (k : nat) (sep s : string) : list string :=
  match k with
  | O => [s]
  | S k' =>
      match partition sep s with
      | Some (a, b) => a :: split_upto k' sep b
      | None => [s]
      end
  end.

(** [s.split(sep, maxsplit)]; [None] is the default [maxsplit=-1]
    (no limit: a string has at most [len(s)] occurrences of a
    non-empty separator). *)
Definition split (sep : string) (maxsplit : option nat) (s : string) : list string :=
  split_upto (default (String.length s) maxsplit) sep s.

(** Truth value of a [str]: non-empty. *)
Definition truthy (s : string) : bool := negb (String.eqb s "").

End PyStr.

(** ** Control effects *)

Inductive exn := TypeError | IndexError | AttributeError | KeyError.

(** What ends a run early: [sys.exit(code)] or an exception nobody
    catches. *)
Inductive stop :=
| SysExit (code : Z)
| Uncaught (e : exn).

(** One constructor per [print] statement of the script, with the values
    it interpolates (the top-ten listing of the last line is left out). *)
Inductive msg :=
| MsgUsage
| MsgLoaded (n : nat)
| MsgColumns (cols : option (list string))
| MsgWarnFirstColumn (c : string)
| MsgParseFrom (c : string)
| MsgErrorNoColumns
| MsgFound (n : nat)
| MsgGenesAbove (threshold n : nat)
| MsgWritten
| MsgNumGenes (n : nat)
| MsgTopGenes.

(** Computations that may raise. *)
Definition E (A : Type) : Type := exn + A.

#[global] Instance E_ret : MRet E := λ _ a, inr a.
#[global] Instance E_fmap : FMap E := λ _ _ f m,
  match m with inl e => inl e | inr a => inr (f a) end.
#[global] Instance E_bind : MBind E := λ _ _ f m,
  match m with inl e => inl e | inr a => f a end.

(** Computations that print and may stop the process. *)
Definition M (A : Type) : Type := list msg * (stop + A).

#[global] Instance M_ret : MRet M := λ _ a, ([], inr a).
#[global] Instance M_bind : MBind M := λ _ _ f m,
  match m with
  | (out, inl s) => (out, inl s)
  | (out, inr a) => let '(out', r) := f a in (out ++ out', r)
  end.

Definition print (m : msg) : M () := ([m], inr ()).
Definition sys_exit {A} (code : Z) : M A := ([], inl (SysExit code)).
Definition raise {A} (e : exn) : M A := ([], inl (Uncaught e)).
Definition lift {A} (m : E A) : M A :=
  match m with inl e => raise e | inr a => mret a end.

(** ** csv.DictReader *)

Module DictReader.

(** A row as [DictReader] hands it out: every field name is a key; a
    field the record is too short for has the value [None]. *)
Abbreviation row := (gmap string (option string)).

(** [reader.fieldnames]: the first record of the file, [None] when the
    file has no record at all. *)
Definition fieldnames (records : list (list string)) : option (list string) :=
  head records.

(** [dict(zip(fieldnames, record))], then [restval] for the names the
    record does not reach.  Later duplicates of a name overwrite
    earlier ones.  (The [restkey] entry of an over-long record is keyed
    by [None] and no column name reads it.) *)
Definition make_row (names : list string) (record : list string) : row :=
  let d := foldl (λ d kv, <[kv.1 := Some kv.2]> d) ∅ (zip names record) in
  foldl (λ d k, <[k := None]> d) d (List.skipn (length record) names).

(** Iterating the reader: the records after the header, blank ones
    skipped. *)
Definition rows (records : list (list string)) : list row :=
  match records with
  | [] => []
  | names :: rest =>
      make_row names <$> filter (λ r, r ≠ []) rest
  end.

End DictReader.

(** [d[k]] on a row.  The key is optional because the script's column
    variables start out as [None]; a row has no such key. *)
Definition getitem (d : DictReader.row) (k : option string) : E (option string) :=
  match k ≫= (d !!.) with
  | Some v => inr v
  | None => inl KeyError
  end.

(** [v.strip()] where [v] may be [None] *)
Definition strip_method (v : option string) : E string :=
  match v with
  | Some s => inr (PyStr.strip s)
  | None => inl AttributeError
  end.

(** [l[i]] on a list *)
Definition index {A} (l : list A) (i : nat) : E A :=
  match l !! i with
  | Some x => inr x
  | None => inl IndexError
  end.

(** Truth value of an [Optional[str]]. *)
Definition truthy (o : option string) : bool :=
  match o with
  | Some s => PyStr.truthy s
  | None => false
  end.

(** [sorted] on strings: Python compares [str] by code point, and equal
    strings are indistinguishable, so any sorting algorithm returns the
    same list. *)
Definition sorted (l : list string) : list string := merge_sort String.le l.

(** ** The script *)

Definition MIN_CELL_LINES : nat := 3.

Record input := {
  argv : list string;                (* sys.argv *)
  cellLines : list string;           (* metadata.json, field cellLines *)
  fusion_csv : list (list string);   (* the records of the CSV file *)
}.

Abbreviation fusion := (string * string * string)%type.

Record columns := {
  model_col : string;
  gene1_col : option string;
  gene2_col : option string;
  fusion_name_col : option string;
}.

Abbreviation partner_index := (gmap string (gmap string (gset string))).

(** The value of geneData[gene].  The three dictionaries are finite
    maps: what is stored under each key is modelled, the order in which
    Python keeps and [json.dump] writes the keys is not. *)
Record gene_record := {
  translocations : gmap string nat;
  partners : gmap string (list string);
  counts : gmap string Z;
  total_translocated : nat;
}.

Record output := {
  genes : list string;
  geneCounts : gmap string nat;
  geneData : gmap string gene_record;
}.

(** *** Column detection (lines 51-79) *)

Definition model_id_names : list string :=
  ["ModelID"; "DepMap_ID"; "CellLineID"; "ModelId"].

Definition detect_model_col (cols : list string) : M string :=
  match List.find (λ c, bool_decide (c ∈ model_id_names)) cols with
  | Some c => mret c
  | None =>
      model_col ← lift (index cols 0);
      print (MsgWarnFirstColumn model_col);;
      mret model_col
  end.

Definition normalize (c : string) : string :=
  PyStr.remove_char " " (PyStr.remove_char "_" (PyStr.lower c)).

(** The body of the loop of line 64. *)
Definition classify (found : option string * option string * option string)
    (c : string) : option string * option string * option string :=
  let '(gene1_col, gene2_col, fusion_name_col) := found in
  let cl := normalize c in
  if bool_decide (cl ∈ ["leftgene"; "gene1"; "genea"; "leftgenename"])
  then (Some c, gene2_col, fusion_name_col)
  else if bool_decide (cl ∈ ["rightgene"; "gene2"; "geneb"; "rightgenename"])
  then (gene1_col, Some c, fusion_name_col)
  else if bool_decide (cl ∈ ["fusionname"; "fusion"; "name"])
  then (gene1_col, gene2_col, Some c)
  else (gene1_col, gene2_col, fusion_name_col).

Definition detect_gene_cols (cols : list string)
  : option string * option string * option string :=
  foldl classify (None, None, None) cols.

Definition detect_columns (cols : option (list string)) : M columns :=
  match cols with
  | None => raise TypeError   (* for c in None *)
  | Some cols =>
      model_col ← detect_model_col cols;
      let '(gene1_col, gene2_col, fusion_name_col) := detect_gene_cols cols in
      (if bool_decide (gene1_col = None) || bool_decide (gene2_col = None) then
         match fusion_name_col with
         | Some c =>
             if PyStr.truthy c then print (MsgParseFrom c)
             else print MsgErrorNoColumns;; sys_exit 1
         | None => print MsgErrorNoColumns;; sys_exit 1
         end
       else mret ());;
      mret {| model_col := model_col; gene1_col := gene1_col;
              gene2_col := gene2_col; fusion_name_col := fusion_name_col |}
  end.

(** *** Row filter and extractor (lines 81-111) *)

(** Lines 90-93: drop an Ensembl id in parentheses. *)
Definition strip_annotation (g : string) : E string :=
  if PyStr.contains " (" g
  then g0 ← index (PyStr.split " (" None g) 0; mret (PyStr.strip g0)
  else mret g.

(** Lines 86-93. *)
Definition genes_of_columns (c : columns) (row : DictReader.row) : E (string * string) :=
  g1 ← getitem row (gene1_col c) ≫= strip_method;
  g2 ← getitem row (gene2_col c) ≫= strip_method;
  g1 ← strip_annotation g1;
  g2 ← strip_annotation g2;
  mret (g1, g2).

(** Lines 103-104. *)
Definition genes_of_parts (parts : list string) : E (string * string) :=
  p0 ← index parts 0;
  let g1 := PyStr.strip p0 in
  g2 ← (if bool_decide (1 < length parts)
        then p1 ← index parts 1; mret (PyStr.strip p1)
        else mret "");
  mret (g1, g2).

(** Lines 94-104; [None] is the [continue] of line 102. *)
Definition genes_of_name (c : columns) (row : DictReader.row) : E (option (string * string)) :=
  fname ← getitem row (fusion_name_col c) ≫= strip_method;
  if PyStr.contains "--" fname
  then Some <$> genes_of_parts (PyStr.split "--" (Some 1) fname)
  else if PyStr.contains "-" fname
  then Some <$> genes_of_parts (PyStr.split "-" (Some 1) fname)
  else mret None.

(** One pass of the loop body; [None] means the row was skipped by a
    [continue]. *)
Definition extract (c : columns) (valid_cell_lines : gset string)
    (row : DictReader.row) : E (option fusion) :=
  model_id ← getitem row (Some (model_col c)) ≫= strip_method;
  if bool_decide (model_id ∉ valid_cell_lines) then mret None else
  pair ← (if truthy (gene1_col c) && truthy (gene2_col c)
          then Some <$> genes_of_columns c row
          else if truthy (fusion_name_col c)
          then genes_of_name c row
          else mret None);
  match pair with
  | Some (g1, g2) =>
      if negb (PyStr.truthy g1) || negb (PyStr.truthy g2) then mret None
      else mret (Some (model_id, g1, g2))
  | None => mret None
  end.

Fixpoint read_rows (c : columns) (valid_cell_lines : gset string)
    (rows : list DictReader.row) (fusions : list fusion) : E (list fusion) :=
  match rows with
  | [] => mret fusions
  | row :: rest =>
      ev ← extract c valid_cell_lines row;
      read_rows c valid_cell_lines rest (fusions ++ option_list ev)
  end.

(** *** Aggregator (lines 117-121) *)

(** [gene_partners[g][model_id].add(p)] on a [defaultdict] of
    [defaultdict(set)]. *)
Definition add_partner (gene_partners : partner_index) (g model_id p : string)
  : partner_index :=
  let cell_data := default ∅ (gene_partners !! g) in
  let partner_set := default ∅ (cell_data !! model_id) in
  <[g := <[model_id := partner_set ∪ {[p]}]> cell_data]> gene_partners.

Definition add_fusion (gene_partners : partner_index) (f : fusion) : partner_index :=
  let '(model_id, g1, g2) := f in
  add_partner (add_partner gene_partners g1 model_id g2) g2 model_id g1.

Definition index_fusions (fusions : list fusion) : partner_index :=
  foldl add_fusion ∅ fusions.

(** *** Threshold filter (lines 124-128) *)

(** The loop copies the entries with enough cell lines into a fresh
    dictionary. *)
Definition filter_genes (min_cell_lines : nat) (gene_partners : partner_index)
  : partner_index :=
  filter (λ kv, min_cell_lines ≤ size kv.2) gene_partners.

(** *** Summarizer (lines 133-173) *)

(** [counts[bucket] += 1] on a [defaultdict(int)] *)
Definition incr (counts : gmap string Z) (bucket : string) : gmap string Z :=
  <[bucket := (default 0 (counts !! bucket) + 1)%Z]> counts.

(** Lines 139-167 for one gene.  The loop of line 147 visits every
    entry of [cell_data] once: it stores the size and the sorted list of
    each partner set (two maps over [cell_data]) and adds one to the
    bucket of each (a fold; the order of the visits does not show in the
    result). *)
Definition summarize (valid_cell_lines : gset string)
    (cell_data : gmap string (gset string)) : gene_record :=
  let total_translocated := size cell_data in
  let translocations := size <$> cell_data in
  let partners := (sorted ∘ elements) <$> cell_data in
  let counts :=
    map_fold (λ _ partner_set counts,
                incr counts (pretty (size partner_set `min` 2)))
             ∅ cell_data in
  let n_wt := (Z.of_nat (size valid_cell_lines) - Z.of_nat total_translocated)%Z in
  let counts := <["0" := n_wt]> counts in
  {| translocations := translocations;
     partners := partners;
     counts := {[ "0" := default 0%Z (counts !! "0");
                  "1" := default 0%Z (counts !! "1");
                  "2" := default 0%Z (counts !! "2") ]};
     total_translocated := total_translocated |}.

(** The loop of line 137 over the sorted gene names. *)
Fixpoint summarize_all (valid_cell_lines : gset string)
    (filtered_genes : partner_index) (genes_sorted : list string)
    (gene_counts : gmap string nat) (gene_data : gmap string gene_record)
  : E (gmap string nat * gmap string gene_record) :=
  match genes_sorted with
  | [] => mret (gene_counts, gene_data)
  | gene :: rest =>
      match filtered_genes !! gene with
      | None => inl KeyError
      | Some cell_data =>
          summarize_all valid_cell_lines filtered_genes rest
            (<[gene := size cell_data]> gene_counts)
            (<[gene := summarize valid_cell_lines cell_data]> gene_data)
      end
  end.

Definition build_output (valid_cell_lines : gset string)
    (filtered_genes : partner_index) : E output :=
  let genes_sorted := sorted (map_to_list filtered_genes).*1 in
  '(gene_counts, gene_data) ←
    summarize_all valid_cell_lines filtered_genes genes_sorted ∅ ∅;
  mret {| genes := genes_sorted; geneCounts := gene_counts;
          geneData := gene_data |}.

(** *** main *)

(** Line 38. *)
Definition valid_cell_lines (inp : input) : gset string :=
  list_to_set (cellLines inp).

(** Lines 25-113: everything up to the list of accepted fusion events. *)
Definition load (inp : input) : M (list fusion) :=
  if bool_decide (length (argv inp) < 2) then print MsgUsage;; sys_exit 1 else
  print (MsgLoaded (size (valid_cell_lines inp)));;
  let cols := DictReader.fieldnames (fusion_csv inp) in
  print (MsgColumns cols);;
  c ← detect_columns cols;
  fusions ← lift (read_rows c (valid_cell_lines inp)
                    (DictReader.rows (fusion_csv inp)) []);
  print (MsgFound (length fusions));;
  mret fusions.

(** The whole script, with the module constant as a parameter.  A result
    [inr out] stands for: [out] was written to translocations.json and
    the process ended with exit code 0. *)
Definition run (min_cell_lines : nat) (inp : input) : M output :=
  fusions ← load inp;
  let gene_partners := index_fusions fusions in
  let filtered_genes := filter_genes min_cell_lines gene_partners in
  print (MsgGenesAbove min_cell_lines (size filtered_genes));;
  out ← lift (build_output (valid_cell_lines inp) filtered_genes);
  print MsgWritten;;
  print (MsgNumGenes (length (genes out)));;
  print MsgTopGenes;;
  mret out.

Definition main : input → M output := run MIN_CELL_LINES.

(** * Vocabulary of the properties *)

(** ** The partner index *)

(** [p] is recorded as a partner of gene [g] in cell line [c]. *)
Definition partner_of (gp : partner_index) (g c p : string) : Prop :=
  ∃ cell_data partner_set,
    gp !! g = Some cell_data ∧ cell_data !! c = Some partner_set ∧ p ∈ partner_set.

(** No partner set of the index is empty: sets only come into being
    through [add]. *)
Definition inhabited_sets (gp : partner_index) : Prop :=
  ∀ g cell_data c partner_set,
    gp !! g = Some cell_data → cell_data !! c = Some partner_set →
    partner_set ≠ ∅.

(** The orientation under which event [f] registers [p] with [g] in
    cell line [c]. *)
Definition registers (f : fusion) (g c p : string) : Prop :=
  f.1.1 = c ∧ ((f.1.2 = g ∧ f.2 = p) ∨ (f.2 = g ∧ f.1.2 = p)).

(** [counts.get(b, 0)] *)
Definition get (counts : gmap string Z) (b : string) : Z :=
  default 0%Z (counts !! b).

(** ** Columns and rows *)

(** The gene source the detector found is usable: both gene columns, or
    a fusion-name column (lines 74-75). *)
Definition usable (found : option string * option string * option string) : bool :=
  let '(gene1_col, gene2_col, fusion_name_col) := found in
  negb (bool_decide (gene1_col = None) || bool_decide (gene2_col = None))
  || truthy fusion_name_col.

(** The value of field [k] is a string, not the [None] of a record that
    was too short. *)
Definition present (row : DictReader.row) (k : string) : Prop :=
  ∃ v, row !! k = Some (Some v).

(** The column [o], if any, is one of the headers. *)
Definition among (cols : list string) (o : option string) : Prop :=
  ∀ k, o = Some k → k ∈ cols.

(** Every character of [s] satisfies [P]. *)
Fixpoint all_chars (P : ascii → bool) (s : string) : bool :=
  match s with
  | "" => true
  | String c s' => P c && all_chars P s'
  end.

Definition no_space (s : string) : bool :=
  all_chars (λ c, negb (PyStr.isspace c)) s.

Definition no_char (c : ascii) (s : string) : bool :=
  all_chars (λ d, negb (Ascii.eqb c d)) s.

(** Where lines 97-100 cut a fusion name: at the first double hyphen if
    there is one, else at the first single hyphen. *)
Definition cut_name (fname : string) : option (string * string) :=
  match PyStr.partition "--" fname with
  | Some p => Some p
  | None => PyStr.partition "-" fname
  end.

(** Lines 90-93 as a function: the text before the first [" ("],
    stripped again. *)
Definition unannotated (g : string) : string :=
  match PyStr.partition " (" g with
  | Some (a, _) => PyStr.strip a
  | None => g
  end.

(** Lines 108 and 111 as a function. *)
Definition accept (model_id : string) (pair : string * string) : option fusion :=
  if PyStr.truthy pair.1 && PyStr.truthy pair.2
  then Some (model_id, pair.1, pair.2) else None.

(** What the detector returns for the headers ModelID, FusionName ... *)
Definition name_columns : columns := {|
  model_col := "ModelID"; gene1_col := None; gene2_col := None;
  fusion_name_col := Some "FusionName";
|}.

(** ... and for the headers ModelID, LeftGene, RightGene. *)
Definition gene_columns : columns := {|
  model_col := "ModelID"; gene1_col := Some "LeftGene";
  gene2_col := Some "RightGene"; fusion_name_col := None;
|}.

(** ** The specification's wording, where it differs from the script *)

(** Identifier column: whenever some header equals one of the
    identifier names up to letter case, the column the detector takes
    as the identifier is such a header. *)
Definition identifier_matched_ignoring_case : Prop :=
  ∀ cols c h,
    (detect_columns (Some cols)).2 = inr c →
    h ∈ cols →
    (∃ n, n ∈ model_id_names ∧ PyStr.lower h = PyStr.lower n) →
    ∃ n, n ∈ model_id_names ∧ PyStr.lower (model_col c) = PyStr.lower n.

(** Name parser: split on the double hyphen if there is one, else on the
    single hyphen, and take the first two segments of that split. *)
Definition first_two_segments (fname : string) : option (string * string) :=
  let sep := if PyStr.contains "--" fname then "--" else "-" in
  match PyStr.split sep None fname with
  | a :: b :: _ => Some (PyStr.strip a, PyStr.strip b)
  | _ => None
  end.


(** The exit status of the process: the argument of [sys.exit]; 1 after
    an uncaught exception, when the interpreter prints the traceback and
    exits; 0 at the end of the script. *)
Definition exit_status (r : stop + output) : Z :=
  match r with
  | inl (SysExit code) => code
  | inl (Uncaught _) => 1
  | inr _ => 0
  end.

(** Two records hold the same data; the order in which the script's
    dictionaries list the cell lines is not part of a record here. *)
Definition same_record (r r' : gene_record) : Prop :=
  total_translocated r' = total_translocated r
  ∧ counts r' = counts r
  ∧ ∀ C, translocations r' !! C = translocations r !! C
         ∧ partners r' !! C = partners r !! C.

(** ** Sample inputs *)

(** BCR is fused in three valid cell lines, with two partners in one of
    them; one row names an unknown cell line. *)
Definition example_input : input := {|
  argv := ["process_translocations.py"; "OmicsFusionFiltered.csv"];
  cellLines := ["ACH-1"; "ACH-2"; "ACH-3"; "ACH-4"];
  fusion_csv := [["ModelID"; "LeftGene"; "RightGene"];
                 ["ACH-1"; "BCR"; "ABL1"];
                 ["ACH-2"; "BCR (ENSG00000186716.20)"; "ABL1"];
                 ["ACH-3"; "BCR"; "ABL1"];
                 ["ACH-3"; "JAK2"; "BCR"];
                 ["ACH-9"; "BCR"; "ABL1"]];
|}.

(** The three rows of the specification's example, as a CSV file with
    explicit gene columns. *)
Definition dedup_input : input := {|
  argv := ["process_translocations.py"; "OmicsFusionFiltered.csv"];
  cellLines := ["ACH-1"; "ACH-2"; "ACH-3"];
  fusion_csv := [["ModelID"; "LeftGene"; "RightGene"];
                 ["ACH-1"; "BCR (ENSG1)"; "ABL1"];
                 ["ACH-1"; "BCR"; "ABL1"];
                 ["ACH-2"; "BCR"; "ABL1"]];
|}.

(** A file without any record. *)
Definition empty_file_input : input := {|
  argv := ["process_translocations.py"; "empty.csv"];
  cellLines := ["ACH-1"];
  fusion_csv := [];
|}.

(** A file that starts with a blank line. *)
Definition blank_header_input : input := {|
  argv := ["process_translocations.py"; "blank.csv"];
  cellLines := ["ACH-1"];
  fusion_csv := [[]; ["ACH-1"; "BCR"; "ABL1"]];
|}.

(** A record that stops before the gene columns. *)
Definition short_record_input : input := {|
  argv := ["process_translocations.py"; "OmicsFusionFiltered.csv"];
  cellLines := ["ACH-1"];
  fusion_csv := [["ModelID"; "LeftGene"; "RightGene"]; ["ACH-1"]];
|}.

(** One row with the fusion name [g1--g2] ... *)
Definition name_input (args cell_lines : list string) (m g1 g2 : string) : input := {|
  argv := args; cellLines := cell_lines;
  fusion_csv := [["ModelID"; "FusionName"]; [m; g1 +:+ "--" +:+ g2]];
|}.

(** ... and one row with the gene columns [g1] and [g2]. *)
Definition columns_input (args cell_lines : list string) (m g1 g2 : string) : input := {|
  argv := args; cellLines := cell_lines;
  fusion_csv := [["ModelID"; "LeftGene"; "RightGene"]; [m; g1; g2]];
|}.

(** What either of these two files yields. *)
Definition the_event (cell_lines : list string) (m g1 g2 : string) : list fusion :=
  if bool_decide (PyStr.strip m ∈ list_to_set (C:=gset string) cell_lines)
  then option_list (accept (PyStr.strip m) (PyStr.strip g1, PyStr.strip g2))
  else [].

(** Name fallback: on every row, the fusion name [g1--g2] yields what
    the gene columns [g1] and [g2] yield. *)
Definition name_fallback_agrees_on_every_row : Prop :=
  ∀ args cell_lines m g1 g2,
    (load (name_input args cell_lines m g1 g2)).2
    = (load (columns_input args cell_lines m g1 g2)).2.

(** The records of [example_input] in another order, one of them
    twice, and the valid cell lines listed differently. *)
Definition shuffled_input : input := {|
  argv := ["process_translocations.py"; "copy.csv"];
  cellLines := ["ACH-4"; "ACH-3"; "ACH-2"; "ACH-1"; "ACH-1"];
  fusion_csv := [["ModelID"; "LeftGene"; "RightGene"];
                 ["ACH-9"; "BCR"; "ABL1"];
                 ["ACH-3"; "JAK2"; "BCR"];
                 ["ACH-3"; "BCR"; "ABL1"];
                 ["ACH-1"; "BCR"; "ABL1"];
                 ["ACH-3"; "JAK2"; "BCR"];
                 ["ACH-2"; "BCR (ENSG00000186716.20)"; "ABL1"]];
|}.

(** A header, then blank lines only. *)
Definition header_only_input : input := {|
  argv := ["process_translocations.py"; "OmicsFusionFiltered.csv"];
  cellLines := ["ACH-1"];
  fusion_csv := [["ModelID"; "FusionName"]; []; []];
|}.

(** Rows for cell lines the metadata does not list. *)
Definition unknown_cell_lines_input : input := {|
  argv := ["process_translocations.py"; "OmicsFusionFiltered.csv"];
  cellLines := ["ACH-1"];
  fusion_csv := [["ModelID"; "FusionName"];
                 ["ACH-7"; "BCR--ABL1"]; ["ACH-8"; "BCR--ABL1"]];
|}.

(** A record for an unknown cell line that stops early, then a record
    for a valid one that stops before the second gene. *)
Definition short_second_record_input : input := {|
  argv := ["process_translocations.py"; "OmicsFusionFiltered.csv"];
  cellLines := ["ACH-1"];
  fusion_csv := [["ModelID"; "LeftGene"; "RightGene"];
                 ["ACH-7"];
                 ["ACH-1"; "BCR"];
                 ["ACH-1"; "BCR"; "ABL1"]];
|}.

(** * Properties *)

(** ** The two monads *)

Section Monads.
Context {A B : Type}.

Lemma E_bind_inr (m : E A) (f : A → E B) b :
  m ≫= f = inr b ↔ ∃ a, m = inr a ∧ f a = inr b.
Proof.
  destruct m as [e|a]; simpl; split.
  - discriminate.
  - intros (a & Ha & _). discriminate.
  - eauto.
  - intros (a' & [= <-] & Hf). exact Hf.
Qed.

Lemma M_bind_snd_inr (m : M A) (f : A → M B) b :
  (m ≫= f).2 = inr b ↔ ∃ a, m.2 = inr a ∧ (f a).2 = inr b.
Proof.
  destruct m as [out [s|a]]; simpl.
  - split; [discriminate | intros (a & [=] & _)].
  - destruct (f a) as [out' r] eqn:Hf; simpl. split.
    + intros ->. exists a. by rewrite Hf.
    + intros (a' & [= <-] & Hb). by rewrite Hf in Hb.
Qed.

Lemma lift_snd (m : E A) :
  (lift m).2 = match m with inl e => inl (Uncaught e) | inr a => inr a end.
Proof. by destruct m. Qed.

End Monads.

(** ** The partner index *)

Section Index.
Implicit Types (gp : partner_index) (g c p : string) (f : fusion).

Lemma add_partner_spec gp g c p g' c' p' :
  partner_of (add_partner gp g c p) g' c' p'
  ↔ partner_of gp g' c' p' ∨ (g' = g ∧ c' = c ∧ p' = p).
Proof.
  unfold partner_of, add_partner.
  destruct (decide (g' = g)) as [->|Hg].
  - rewrite lookup_insert_eq.
    destruct (decide (c' = c)) as [->|Hc].
    + split.
      * intros (cd & ps & [= <-] & Hps & Hp).
        rewrite lookup_insert_eq in Hps. injection Hps as <-.
        apply elem_of_union in Hp as [Hp | ->%elem_of_singleton]; [left | by right].
        destruct (gp !! g) as [cd|]; simpl in *; [|set_solver].
        destruct (cd !! c) as [ps|] eqn:Hc; simpl in *; [|set_solver].
        by exists cd, ps.
      * intros [(cd & ps & Hcd & Hps & Hp) | (_ & _ & ->)].
        -- eexists _, _. split; [done|]. rewrite lookup_insert_eq.
           split; [done|]. rewrite Hcd; simpl. rewrite Hps; simpl. set_solver.
        -- eexists _, _. split; [done|]. rewrite lookup_insert_eq.
           split; [done|]. set_solver.
    + split.
      * intros (cd & ps & [= <-] & Hps & Hp).
        rewrite lookup_insert_ne in Hps by done. left.
        destruct (gp !! g) as [cd|]; simpl in *; [|by rewrite lookup_empty in Hps].
        by exists cd, ps.
      * intros [(cd & ps & Hcd & Hps & Hp) | (_ & ? & _)]; [|done].
        eexists _, ps. split; [done|]. rewrite lookup_insert_ne by done.
        rewrite Hcd; simpl. done.
  - split.
    + intros (cd & ps & Hcd & Hps & Hp).
      rewrite lookup_insert_ne in Hcd by done. left. by exists cd, ps.
    + intros [(cd & ps & Hcd & Hps & Hp) | (? & _)]; [|done].
      exists cd, ps. by rewrite lookup_insert_ne.
Qed.

Lemma add_partner_inhabited gp g c p :
  inhabited_sets gp → inhabited_sets (add_partner gp g c p).
Proof.
  intros Hgp g' cd c' ps. unfold add_partner.
  destruct (decide (g' = g)) as [->|Hg].
  - rewrite lookup_insert_eq. intros [= <-].
    destruct (decide (c' = c)) as [->|Hc].
    + rewrite lookup_insert_eq. intros [= <-]. set_solver.
    + rewrite lookup_insert_ne by done.
      destruct (gp !! g) as [cd|] eqn:Hcd; simpl; [|by rewrite lookup_empty].
      by apply (Hgp g cd c').
  - rewrite lookup_insert_ne by done. apply Hgp.
Qed.

Lemma add_fusion_spec gp f g c p :
  partner_of (add_fusion gp f) g c p ↔ partner_of gp g c p ∨ registers f g c p.
Proof.
  destruct f as [[m g1] g2]. unfold add_fusion, registers; simpl.
  rewrite !add_partner_spec. intuition congruence.
Qed.

Lemma foldl_add_fusion_spec fusions gp g c p :
  partner_of (foldl add_fusion gp fusions) g c p
  ↔ partner_of gp g c p ∨ ∃ f, f ∈ fusions ∧ registers f g c p.
Proof.
  revert gp. induction fusions as [|f fusions IH]; intros gp; simpl.
  - split; [auto | intros [H | (f & Hf & _)]; [done | by apply elem_of_nil in Hf]].
  - rewrite IH, add_fusion_spec. split.
    + intros [[H | H] | (f' & Hf' & H)]; [by left | right..].
      * exists f. split; [left | done].
      * exists f'. split; [by right | done].
    + intros [H | (f' & Hf' & H)]; [by left; left|].
      apply elem_of_cons in Hf' as [-> | Hf']; [by left; right|].
      right. by exists f'.
Qed.

Lemma foldl_add_fusion_inhabited fusions gp :
  inhabited_sets gp → inhabited_sets (foldl add_fusion gp fusions).
Proof.
  revert gp. induction fusions as [|[[m g1] g2] fusions IH]; intros gp Hgp; simpl.
  - done.
  - by apply IH, add_partner_inhabited, add_partner_inhabited.
Qed.

Lemma index_fusions_spec fusions g c p :
  partner_of (index_fusions fusions) g c p
  ↔ ∃ f, f ∈ fusions ∧ registers f g c p.
Proof.
  unfold index_fusions. rewrite foldl_add_fusion_spec. split.
  - intros [(cd & ps & Hcd & _) | H]; [by rewrite lookup_empty in Hcd | done].
  - auto.
Qed.

Lemma index_fusions_inhabited fusions : inhabited_sets (index_fusions fusions).
Proof.
  apply foldl_add_fusion_inhabited. intros g cd c ps Hcd.
  by rewrite lookup_empty in Hcd.
Qed.

(** Every cell line the index mentions comes from an event. *)
Lemma index_fusions_cell_line fusions g cell_data c :
  index_fusions fusions !! g = Some cell_data →
  is_Some (cell_data !! c) →
  ∃ f, f ∈ fusions ∧ f.1.1 = c.
Proof.
  intros Hcd [ps Hps].
  destruct (set_choose_L ps) as [p Hp].
  { by eapply index_fusions_inhabited. }
  destruct (proj1 (index_fusions_spec fusions g c p)) as (f & Hf & Hc & _).
  { by exists cell_data, ps. }
  by exists f.
Qed.

End Index.

(** ** The summary of one gene *)

Section Summary.
Implicit Types (valid : gset string) (cell_data : gmap string (gset string)).

Lemma get_incr counts b b' :
  get (incr counts b) b' = (get counts b' + if decide (b = b') then 1 else 0)%Z.
Proof.
  unfold get, incr. destruct (decide (b = b')) as [->|Hb].
  - by rewrite lookup_insert_eq.
  - rewrite lookup_insert_ne by done. lia.
Qed.

Lemma bucket_cases (n : nat) :
  (n = 0 ∧ pretty (n `min` 2) = "0")
  ∨ (n = 1 ∧ pretty (n `min` 2) = "1")
  ∨ (2 ≤ n ∧ pretty (n `min` 2) = "2").
Proof.
  destruct n as [|[|n]]; [by left | by right; left | right; right].
  split; [lia|]. by replace (S (S n) `min` 2) with 2 by lia.
Qed.

(** The histogram loop of lines 147-152: buckets "1" and "2" count the
    cell lines with one and with several partners, and bucket "0" the
    cell lines with an empty partner set. *)
Lemma histogram_spec cell_data :
  let counts :=
    map_fold (λ (_ : string) (partner_set : gset string) counts,
                incr counts (pretty (size partner_set `min` 2)))
             (∅ : gmap string Z) cell_data in
  (0 ≤ get counts "0" ∧ 0 ≤ get counts "1" ∧ 0 ≤ get counts "2")%Z
  ∧ (get counts "0" + get counts "1" + get counts "2")%Z = Z.of_nat (size cell_data)
  ∧ ((∀ c ps, cell_data !! c = Some ps → ps ≠ ∅) → get counts "0" = 0%Z).
Proof.
  simpl. apply (map_fold_weak_ind (λ counts cell_data,
    (0 ≤ get counts "0" ∧ 0 ≤ get counts "1" ∧ 0 ≤ get counts "2")%Z
    ∧ (get counts "0" + get counts "1" + get counts "2")%Z = Z.of_nat (size cell_data)
    ∧ ((∀ c ps, cell_data !! c = Some ps → ps ≠ ∅) → get counts "0" = 0%Z))).
  - unfold get. rewrite !lookup_empty, map_size_empty. simpl. split; [lia|]. done.
  - intros c ps m counts Hc (Hpos & Hsum & Hzero).
    rewrite !get_incr, map_size_insert_None by done.
    destruct (bucket_cases (size ps)) as [[Hn ->] | [[Hn ->] | [Hn ->]]];
      repeat case_decide; try done.
    + split; [lia|]. split; [lia|]. intros Hne.
      destruct (Hne c ps); [apply lookup_insert_eq | by apply size_empty_inv, leibniz_equiv in Hn].
    + split; [lia|]. split; [lia|]. intros Hne.
      rewrite Hzero; [lia|]. intros c' ps' Hc'. apply (Hne c').
      rewrite lookup_insert_ne; [done | congruence].
    + split; [lia|]. split; [lia|]. intros Hne.
      rewrite Hzero; [lia|]. intros c' ps' Hc'. apply (Hne c').
      rewrite lookup_insert_ne; [done | congruence].
Qed.

(** What [summarize] stores under "counts". *)
Lemma summarize_counts valid cell_data :
  (∀ c ps, cell_data !! c = Some ps → ps ≠ ∅) →
  ∃ c1 c2 : Z,
    counts (summarize valid cell_data)
    = {[ "0" := (Z.of_nat (size valid) - Z.of_nat (size cell_data))%Z;
         "1" := c1; "2" := c2 ]}
    ∧ (0 ≤ c1)%Z ∧ (0 ≤ c2)%Z ∧ (c1 + c2)%Z = Z.of_nat (size cell_data).
Proof.
  intros Hne. destruct (histogram_spec cell_data) as (Hpos & Hsum & Hzero).
  simpl in *. specialize (Hzero Hne).
  eexists _, _. split; [|split; [|split]].
  - unfold summarize; simpl. rewrite lookup_insert_eq.
    rewrite !lookup_insert_ne by done. simpl. reflexivity.
  - apply Hpos.
  - apply Hpos.
  - fold (get (map_fold (λ (_ : string) (partner_set : gset string) counts,
                incr counts (pretty (size partner_set `min` 2))) ∅ cell_data) "1").
    fold (get (map_fold (λ (_ : string) (partner_set : gset string) counts,
                incr counts (pretty (size partner_set `min` 2))) ∅ cell_data) "2").
    lia.
Qed.

End Summary.

(** ** The output structure *)

Section Output.
Implicit Types (valid : gset string) (filtered : partner_index).

Lemma sorted_elem_of (l : list string) x : x ∈ sorted l ↔ x ∈ l.
Proof. unfold sorted. by rewrite merge_sort_Permutation. Qed.

Lemma sorted_Sorted (l : list string) : StronglySorted String.le (sorted l).
Proof. apply StronglySorted_merge_sort; apply _. Qed.

Lemma sorted_NoDup (l : list string) : NoDup l → NoDup (sorted l).
Proof. unfold sorted. by rewrite merge_sort_Permutation. Qed.

Lemma elem_of_keys {V} (m : gmap string V) g :
  g ∈ (map_to_list m).*1 ↔ is_Some (m !! g).
Proof.
  rewrite list_elem_of_fmap. split.
  - intros ([g' v] & -> & Hv). apply elem_of_map_to_list in Hv. by exists v.
  - intros [v Hv]. exists (g, v). split; [done|]. by apply elem_of_map_to_list.
Qed.

Lemma summarize_all_spec valid filtered genes_sorted gene_counts gene_data :
  (∀ g, g ∈ genes_sorted → is_Some (filtered !! g)) →
  ∃ gene_counts' gene_data',
    summarize_all valid filtered genes_sorted gene_counts gene_data
    = inr (gene_counts', gene_data')
    ∧ (∀ g, gene_counts' !! g
            = if decide (g ∈ genes_sorted) then size <$> filtered !! g
              else gene_counts !! g)
    ∧ (∀ g, gene_data' !! g
            = if decide (g ∈ genes_sorted) then summarize valid <$> filtered !! g
              else gene_data !! g).
Proof.
  revert gene_counts gene_data.
  induction genes_sorted as [|gene rest IH]; intros gene_counts gene_data Hin; simpl.
  - eexists _, _. split; [reflexivity|].
    split; intros g; destruct (decide (g ∈ [])) as [Hg|]; done || by apply elem_of_nil in Hg.
  - destruct (Hin gene) as [cell_data Hcd]; [left|]. rewrite Hcd.
    destruct (IH (<[gene := size cell_data]> gene_counts)
                 (<[gene := summarize valid cell_data]> gene_data))
      as (gc & gd & -> & Hgc & Hgd).
    { intros g Hg. apply Hin. by right. }
    exists gc, gd. split; [done|].
    split; intros g; [rewrite Hgc | rewrite Hgd];
      destruct (decide (g ∈ rest)) as [Hr|Hr].
    + rewrite decide_True; [done | by right].
    + destruct (decide (g = gene)) as [->|Hne].
      * rewrite lookup_insert_eq, decide_True by left. by rewrite Hcd.
      * rewrite lookup_insert_ne by done. rewrite decide_False; [done|].
        by intros [?|?]%elem_of_cons.
    + rewrite decide_True; [done | by right].
    + destruct (decide (g = gene)) as [->|Hne].
      * rewrite lookup_insert_eq, decide_True by left. by rewrite Hcd.
      * rewrite lookup_insert_ne by done. rewrite decide_False; [done|].
        by intros [?|?]%elem_of_cons.
Qed.

(** The loop of line 137 cannot raise, and it maps every retained gene
    to its size and its summary. *)
Lemma build_output_spec valid filtered :
  build_output valid filtered
  = inr {| genes := sorted (map_to_list filtered).*1;
           geneCounts := size <$> filtered;
           geneData := summarize valid <$> filtered |}.
Proof.
  unfold build_output.
  destruct (summarize_all_spec valid filtered
              (sorted (map_to_list filtered).*1) ∅ ∅) as (gc & gd & -> & Hgc & Hgd).
  { intros g. by rewrite sorted_elem_of, elem_of_keys. }
  simpl. do 2 f_equal.
  - apply map_eq. intros g. rewrite Hgc, lookup_fmap. case_decide as Hg; [done|].
    rewrite sorted_elem_of, elem_of_keys, <- eq_None_not_Some in Hg.
    by rewrite Hg, lookup_empty.
  - apply map_eq. intros g. rewrite Hgd, lookup_fmap. case_decide as Hg; [done|].
    rewrite sorted_elem_of, elem_of_keys, <- eq_None_not_Some in Hg.
    by rewrite Hg, lookup_empty.
Qed.

End Output.

(** ** Reading the rows *)

Section Rows.
Implicit Types (c : columns) (valid : gset string) (row : DictReader.row).

Lemma truthy_true (s : string) : PyStr.truthy s = true ↔ s ≠ "".
Proof.
  unfold PyStr.truthy. destruct (String.eqb_spec s ""); simpl; split; congruence.
Qed.

(** An accepted event names a valid cell line and two non-empty genes
    (lines 83 and 108). *)
Lemma extract_accepts c valid row f :
  extract c valid row = inr (Some f) →
  f.1.1 ∈ valid ∧ f.1.2 ≠ "" ∧ f.2 ≠ "".
Proof.
  unfold extract. intros (model_id & _ & H)%E_bind_inr.
  case_bool_decide as Hvalid; [discriminate|].
  apply E_bind_inr in H as ([[g1 g2]|] & _ & H); [|discriminate].
  destruct (PyStr.truthy g1) eqn:H1, (PyStr.truthy g2) eqn:H2; simpl in H;
    try discriminate.
  injection H as <-. simpl. apply truthy_true in H1, H2.
  split; [|done]. by destruct (decide (model_id ∈ valid)).
Qed.

Lemma read_rows_inr c valid rows fusions fusions' :
  read_rows c valid rows fusions = inr fusions' →
  ∀ f, f ∈ fusions' →
    f ∈ fusions ∨ ∃ row, row ∈ rows ∧ extract c valid row = inr (Some f).
Proof.
  revert fusions. induction rows as [|row rows IH]; intros fusions; simpl.
  - intros [= <-] f Hf. by left.
  - intros (ev & Hev & H)%E_bind_inr f Hf.
    destruct (IH _ H f Hf) as [Hin | (row' & Hrow' & Hex)].
    + apply elem_of_app in Hin as [Hin | Hin]; [by left|].
      right. exists row. split; [left|].
      destruct ev as [f'|]; simpl in Hin;
        [apply list_elem_of_singleton in Hin as -> | by apply elem_of_nil in Hin].
      done.
    + right. exists row'. split; [by right | done].
Qed.

(** The converse: an event a row yields is in the final list. *)
Lemma read_rows_keeps c valid rows fusions fusions' :
  read_rows c valid rows fusions = inr fusions' →
  ∀ f, f ∈ fusions ∨ (∃ row, row ∈ rows ∧ extract c valid row = inr (Some f)) →
    f ∈ fusions'.
Proof.
  revert fusions. induction rows as [|row rows IH]; intros fusions; simpl.
  - intros [= <-] f [Hf | (row & Hrow & _)]; [done | by apply elem_of_nil in Hrow].
  - intros (ev & Hev & H)%E_bind_inr f Hf. apply (IH _ H).
    destruct Hf as [Hf | (row' & Hrow' & Hex)].
    + left. apply elem_of_app. by left.
    + apply elem_of_cons in Hrow' as [-> | Hrow'].
      * left. apply elem_of_app. right. rewrite Hex in Hev. injection Hev as <-.
        simpl. by left.
      * right. by exists row'.
Qed.

End Rows.

(** ** The run as a whole *)

Section Run.
Implicit Types (inp : input) (out : output).

(** A run that reaches line 113 had its argument, resolved its columns
    and read every row without an exception. *)
Lemma load_inr inp fusions :
  (load inp).2 = inr fusions
  ↔ 2 ≤ length (argv inp)
    ∧ ∃ c, (detect_columns (DictReader.fieldnames (fusion_csv inp))).2 = inr c
         ∧ read_rows c (valid_cell_lines inp)
             (DictReader.rows (fusion_csv inp)) [] = inr fusions.
Proof.
  unfold load. case_bool_decide as Hargv.
  - split; [discriminate | lia].
  - rewrite M_bind_snd_inr. setoid_rewrite M_bind_snd_inr.
    setoid_rewrite M_bind_snd_inr. setoid_rewrite M_bind_snd_inr.
    setoid_rewrite lift_snd. split.
    + intros ([] & _ & [] & _ & c & Hc & fs & Hfs & H). split; [lia|].
      exists c. split; [done|].
      destruct (read_rows _ _ _ _); [done|]. simpl in H. congruence.
    + intros (_ & c & Hc & Hfs). exists (). split; [done|]. exists ().
      split; [done|]. exists c. split; [done|]. exists fusions.
      by rewrite Hfs.
Qed.

(** The events of a successful load are the accepted ones. *)
Lemma load_accepts inp fusions :
  (load inp).2 = inr fusions →
  ∀ f, f ∈ fusions → f.1.1 ∈ valid_cell_lines inp ∧ f.1.2 ≠ "" ∧ f.2 ≠ "".
Proof.
  intros (_ & c & _ & Hrows)%load_inr f Hf.
  destruct (read_rows_inr _ _ _ _ _ Hrows f Hf) as [Hnil | (row & _ & Hex)].
  - by apply elem_of_nil in Hnil.
  - by eapply extract_accepts.
Qed.

(** Once the events are loaded nothing can go wrong any more, and the
    output is a function of the partner index. *)
Lemma run_inr min_cell_lines inp out :
  (run min_cell_lines inp).2 = inr out
  ↔ ∃ fusions,
      (load inp).2 = inr fusions
      ∧ let filtered := filter_genes min_cell_lines (index_fusions fusions) in
        out = {| genes := sorted (map_to_list filtered).*1;
                 geneCounts := size <$> filtered;
                 geneData := summarize (valid_cell_lines inp) <$> filtered |}.
Proof.
  unfold run. rewrite M_bind_snd_inr.
  split; intros (fusions & Hload & H); exists fusions; (split; [done|]);
    rewrite build_output_spec in *; simpl in *; congruence.
Qed.

End Run.

(** ** Invariants of the output (claims C1 to C4) *)

Section Invariants.
Implicit Types (inp : input) (out : output) (r : gene_record).

(** A gene of the output is a gene of the index that met the
    threshold, and its record is the summary of its index entry. *)
Lemma geneData_lookup min_cell_lines inp out gene r :
  (run min_cell_lines inp).2 = inr out →
  geneData out !! gene = Some r →
  ∃ fusions cell_data,
    (load inp).2 = inr fusions
    ∧ index_fusions fusions !! gene = Some cell_data
    ∧ min_cell_lines ≤ size cell_data
    ∧ r = summarize (valid_cell_lines inp) cell_data.
Proof.
  intros (fusions & Hload & ->)%run_inr; simpl.
  rewrite lookup_fmap. intros Hr.
  destruct (filter_genes _ _ !! gene) as [cell_data|] eqn:Hcd; [|done].
  injection Hr as <-. apply map_lookup_filter_Some in Hcd as [Hcd Hsize].
  by exists fusions, cell_data.
Qed.

(** The cell lines of an index entry are valid ones. *)
Lemma index_dom_valid inp fusions gene cell_data :
  (load inp).2 = inr fusions →
  index_fusions fusions !! gene = Some cell_data →
  dom cell_data ⊆ valid_cell_lines inp.
Proof.
  intros Hload Hcd c Hc. apply elem_of_dom in Hc.
  destruct (index_fusions_cell_line _ _ _ _ Hcd Hc) as (f & Hf & <-).
  by apply (load_accepts _ _ Hload).
Qed.

End Invariants.

(** C1. For every gene of the output, the three bucket counts add up to
    the number of valid cell lines (the set built from [cellLines]), and
    bucket "0" counts exactly the valid cell lines that are absent from
    the gene's entry in the partner index. *)
Theorem C1_buckets_cover_valid_cell_lines inp out gene r :
  (main inp).2 = inr out →
  geneData out !! gene = Some r →
  ∃ fusions cell_data c0 c1 c2,
    (load inp).2 = inr fusions
    ∧ index_fusions fusions !! gene = Some cell_data
    ∧ counts r = {[ "0" := c0; "1" := c1; "2" := c2 ]}
    ∧ (c0 + c1 + c2)%Z = Z.of_nat (size (valid_cell_lines inp))
    ∧ c0 = Z.of_nat (size (valid_cell_lines inp ∖ dom cell_data)).
Proof.
  intros Hmain Hr.
  destruct (geneData_lookup _ _ _ _ _ Hmain Hr) as (fusions & cell_data & Hload & Hcd & _ & ->).
  destruct (summarize_counts (valid_cell_lines inp) cell_data)
    as (c1 & c2 & Hcounts & _ & _ & Hsum).
  { intros c ps. by apply (index_fusions_inhabited fusions gene). }
  pose proof (index_dom_valid _ _ _ _ Hload Hcd) as Hdom.
  exists fusions, cell_data, (Z.of_nat (size (valid_cell_lines inp)) - Z.of_nat (size cell_data))%Z, c1, c2.
  split; [done|]. split; [done|]. split; [done|]. split; [lia|].
  rewrite size_difference by done. rewrite size_dom.
  apply subseteq_size in Hdom. rewrite size_dom in Hdom. lia.
Qed.

Lemma C1_buckets_cover_valid_cell_lines_witness :
  ∃ out r,
    (main example_input).2 = inr out
    ∧ geneData out !! "BCR" = Some r
    ∧ ∃ fusions cell_data c0 c1 c2,
        (load example_input).2 = inr fusions
        ∧ index_fusions fusions !! "BCR" = Some cell_data
        ∧ counts r = {[ "0" := c0; "1" := c1; "2" := c2 ]}
        ∧ (c0 + c1 + c2)%Z = Z.of_nat (size (valid_cell_lines example_input))
        ∧ c0 = Z.of_nat (size (valid_cell_lines example_input ∖ dom cell_data)).
Proof.
  eexists _, _. split; [vm_compute; reflexivity|]. split; [vm_compute; reflexivity|].
  eapply (C1_buckets_cover_valid_cell_lines example_input); vm_compute; reflexivity.
Defined.

(** C2. For every gene of the output, [total_translocated] is the sum of
    buckets "1" and "2" and is at least 3; a gene whose index entry
    covers fewer than 3 cell lines (or that has no entry) is absent from
    all three parts of the output. *)
Theorem C2_total_and_threshold inp out :
  (main inp).2 = inr out →
  ∃ fusions,
    (load inp).2 = inr fusions
    ∧ (∀ gene r, geneData out !! gene = Some r →
         ∃ c0 c1 c2,
           counts r = {[ "0" := c0; "1" := c1; "2" := c2 ]}
           ∧ Z.of_nat (total_translocated r) = (c1 + c2)%Z
           ∧ 3 ≤ total_translocated r)
    ∧ (∀ gene,
         (∀ cell_data, index_fusions fusions !! gene = Some cell_data →
                       size cell_data < 3) →
         geneData out !! gene = None
         ∧ geneCounts out !! gene = None
         ∧ gene ∉ genes out).
Proof.
  intros Hmain. pose proof Hmain as (fusions & Hload & Hout)%run_inr.
  simpl in Hout. exists fusions. split; [done|]. split.
  - intros gene r Hr.
    destruct (geneData_lookup _ _ _ _ _ Hmain Hr)
      as (fusions' & cell_data & Hload' & Hcd & Hsize & ->).
    destruct (summarize_counts (valid_cell_lines inp) cell_data)
      as (c1 & c2 & Hcounts & _ & _ & Hsum).
    { intros c ps. by apply (index_fusions_inhabited fusions' gene). }
    eexists _, c1, c2. split; [exact Hcounts|]. simpl. split; [lia | exact Hsize].
  - intros gene Hsmall.
    assert (filter_genes MIN_CELL_LINES (index_fusions fusions) !! gene = None) as Hnone.
    { apply eq_None_not_Some. intros [cell_data [Hcd Hsize]%map_lookup_filter_Some].
      specialize (Hsmall _ Hcd). unfold MIN_CELL_LINES in Hsize. simpl in Hsize. lia. }
    subst out; simpl. rewrite !lookup_fmap, Hnone. split; [done|]. split; [done|].
    rewrite sorted_elem_of, elem_of_keys, Hnone. by intros [? ?].
Qed.

Lemma C2_total_and_threshold_witness :
  ∃ out,
    (main example_input).2 = inr out
    ∧ ∃ fusions,
        (load example_input).2 = inr fusions
        ∧ (∀ gene r, geneData out !! gene = Some r →
             ∃ c0 c1 c2,
               counts r = {[ "0" := c0; "1" := c1; "2" := c2 ]}
               ∧ Z.of_nat (total_translocated r) = (c1 + c2)%Z
               ∧ 3 ≤ total_translocated r)
        ∧ (∀ gene,
             (∀ cell_data, index_fusions fusions !! gene = Some cell_data →
                           size cell_data < 3) →
             geneData out !! gene = None
             ∧ geneCounts out !! gene = None
             ∧ gene ∉ genes out).
Proof.
  eexists. split; [vm_compute; reflexivity|].
  apply (C2_total_and_threshold example_input). vm_compute. reflexivity.
Defined.

(** C3. Aggregation is symmetric: for an accepted event (C, A, B), both
    genes have an entry in the partner index; if A passes the threshold
    (its entry covers at least 3 cell lines) then A has a record in the
    output and B is listed in geneData[A].partners[C], and if B passes
    the threshold then B has a record and A is listed in
    geneData[B].partners[C]. *)
Theorem C3_partners_symmetric inp out :
  (main inp).2 = inr out →
  ∃ fusions,
    (load inp).2 = inr fusions
    ∧ ∀ C A B, (C, A, B) ∈ fusions →
        ∃ cdA cdB,
          index_fusions fusions !! A = Some cdA
          ∧ index_fusions fusions !! B = Some cdB
          ∧ (3 ≤ size cdA →
             ∃ rA l, geneData out !! A = Some rA
                     ∧ partners rA !! C = Some l ∧ B ∈ l)
          ∧ (3 ≤ size cdB →
             ∃ rB l, geneData out !! B = Some rB
                     ∧ partners rB !! C = Some l ∧ A ∈ l).
Proof.
  intros Hmain. pose proof Hmain as (fusions & Hload & Hout)%run_inr.
  simpl in Hout. exists fusions. split; [done|]. intros C A B Hin.
  assert (∀ g p, registers (C, A, B) g C p →
            ∃ cd, index_fusions fusions !! g = Some cd
                  ∧ (3 ≤ size cd →
                     ∃ r l, geneData out !! g = Some r
                            ∧ partners r !! C = Some l ∧ p ∈ l)) as Hside.
  { intros g p Hreg.
    destruct (proj2 (index_fusions_spec fusions g C p)) as (cd & ps & Hcd & Hps & Hp).
    { by exists (C, A, B). }
    exists cd. split; [done|]. intros Hsize.
    exists (summarize (valid_cell_lines inp) cd), (sorted (elements ps)).
    split; [|split].
    - subst out; simpl. rewrite lookup_fmap.
      assert (filter_genes MIN_CELL_LINES (index_fusions fusions) !! g = Some cd)
        as -> by (by apply map_lookup_filter_Some).
      done.
    - simpl. by rewrite lookup_fmap, Hps.
    - by rewrite sorted_elem_of, elem_of_elements. }
  destruct (Hside A B) as (cdA & HcdA & HA); [unfold registers; simpl; auto|].
  destruct (Hside B A) as (cdB & HcdB & HB); [unfold registers; simpl; auto|].
  by exists cdA, cdB.
Qed.

Lemma C3_partners_symmetric_witness :
  ∃ out,
    (main example_input).2 = inr out
    ∧ (∃ rA l, geneData out !! "BCR" = Some rA
               ∧ partners rA !! "ACH-3" = Some l ∧ "JAK2" ∈ l)
    ∧ (∃ rB l, geneData out !! "ABL1" = Some rB
               ∧ partners rB !! "ACH-1" = Some l ∧ "BCR" ∈ l).
Proof.
  destruct (main example_input).2 as [s|out] eqn:Hmain;
    [vm_compute in Hmain; discriminate|].
  exists out. split; [reflexivity|].
  destruct (C3_partners_symmetric example_input out Hmain)
    as (fusions & Hload & Hsym).
  assert (fusions = [("ACH-1", "BCR", "ABL1"); ("ACH-2", "BCR", "ABL1");
                     ("ACH-3", "BCR", "ABL1"); ("ACH-3", "JAK2", "BCR")]) as ->.
  { vm_compute in Hload. by injection Hload as <-. }
  assert (∀ g cd, index_fusions
                    [("ACH-1", "BCR", "ABL1"); ("ACH-2", "BCR", "ABL1");
                     ("ACH-3", "BCR", "ABL1"); ("ACH-3", "JAK2", "BCR")] !! g
                  = Some cd →
                  g = "BCR" ∨ g = "ABL1" → 3 ≤ size cd) as Hsize.
  { intros g cd Hcd Hg.
    assert (size <$> index_fusions
                       [("ACH-1", "BCR", "ABL1"); ("ACH-2", "BCR", "ABL1");
                        ("ACH-3", "BCR", "ABL1"); ("ACH-3", "JAK2", "BCR")] !! g
            = Some 3) as H3.
    { destruct Hg as [-> | ->]; vm_compute; reflexivity. }
    rewrite Hcd in H3. injection H3 as ->. lia. }
  split.
  - destruct (Hsym "ACH-3" "JAK2" "BCR") as (cdA & cdB & _ & HcdB & _ & HB).
    { do 3 right. left. }
    apply HB, (Hsize "BCR"); auto.
  - destruct (Hsym "ACH-1" "BCR" "ABL1") as (cdA & cdB & _ & HcdB & _ & HB).
    { left. }
    apply HB, (Hsize "ABL1"); auto.
Defined.

(** C4. The [genes] array is sorted (by code point, as Python compares
    strings), has no repeats, and holds exactly the keys of [geneCounts]
    and exactly the keys of [geneData]. *)
Theorem C4_genes_sorted_key_set inp out :
  (main inp).2 = inr out →
  StronglySorted String.le (genes out)
  ∧ NoDup (genes out)
  ∧ dom (geneCounts out) = list_to_set (genes out)
  ∧ dom (geneData out) = list_to_set (genes out).
Proof.
  intros (fusions & Hload & ->)%run_inr; simpl.
  split; [apply sorted_Sorted|].
  split; [apply sorted_NoDup, NoDup_fst_map_to_list|].
  rewrite !dom_fmap_L.
  split; apply set_eq; intros g;
    by rewrite elem_of_list_to_set, sorted_elem_of, elem_of_keys, elem_of_dom.
Qed.

Lemma C4_genes_sorted_key_set_witness :
  ∃ out,
    (main example_input).2 = inr out
    ∧ genes out = ["ABL1"; "BCR"]
    ∧ StronglySorted String.le (genes out)
    ∧ NoDup (genes out)
    ∧ dom (geneCounts out) = list_to_set (genes out)
    ∧ dom (geneData out) = list_to_set (genes out).
Proof.
  eexists. split; [vm_compute; reflexivity|]. split; [vm_compute; reflexivity|].
  apply (C4_genes_sorted_key_set example_input). vm_compute. reflexivity.
Defined.

(** ** A worked run (claim C8) *)

(** C8. On those rows, with valid cell lines ACH-1, ACH-2, ACH-3 and the
    threshold lowered to 1, the three rows are accepted with the
    annotation stripped, and gene BCR gets translocations ACH-1:1 and
    ACH-2:1, counts 0:1, 1:2, 2:0 and total_translocated 2. *)
Theorem C8_dedup_example :
  (load dedup_input).2
  = inr [("ACH-1", "BCR", "ABL1"); ("ACH-1", "BCR", "ABL1"); ("ACH-2", "BCR", "ABL1")]
  ∧ ∃ out r,
      (run 1 dedup_input).2 = inr out
      ∧ geneData out !! "BCR" = Some r
      ∧ translocations r = {[ "ACH-1" := 1; "ACH-2" := 1 ]}
      ∧ partners r = {[ "ACH-1" := ["ABL1"]; "ACH-2" := ["ABL1"] ]}
      ∧ counts r = {[ "0" := 1%Z; "1" := 2%Z; "2" := 0%Z ]}
      ∧ total_translocated r = 2.
Proof.
  split; [vm_compute; reflexivity|].
  eexists _, _. split; [vm_compute; reflexivity|].
  split; [vm_compute; reflexivity|].
  repeat split; vm_compute; reflexivity.
Qed.

(** ** Empty headers (claim C10) *)

(** C10. When the CSV file yields no header columns, column detection
    raises and nobody catches it: with no record at all the field-name
    list is [None] and the first loop raises TypeError; with an empty
    first record the fallback [cols[0]] raises IndexError.  Either way
    the run ends neither with an output (exit code 0) nor in
    [sys.exit(1)]. *)
Theorem C10_no_header_raises inp :
  2 ≤ length (argv inp) →
  (DictReader.fieldnames (fusion_csv inp) = None
   → (main inp).2 = inl (Uncaught TypeError))
  ∧ (DictReader.fieldnames (fusion_csv inp) = Some []
     → (main inp).2 = inl (Uncaught IndexError)).
Proof.
  intros Hargv. unfold main, run, load.
  rewrite bool_decide_false by lia.
  split; intros ->; reflexivity.
Qed.

Lemma C10_no_header_raises_witness :
  (main empty_file_input).2 = inl (Uncaught TypeError)
  ∧ (main blank_header_input).2 = inl (Uncaught IndexError).
Proof.
  split.
  - apply (C10_no_header_raises empty_file_input); [simpl; lia | reflexivity].
  - apply (C10_no_header_raises blank_header_input); [simpl; lia | reflexivity].
Defined.

(** ** Column detection (claim C5) *)

Section Detection.
Implicit Types (cols : list string) (c : columns).

(** The identifier column is the first header that is literally one
    of the four names, else the first header. *)
Lemma detect_model_col_inr cols m :
  (detect_model_col cols).2 = inr m
  ↔ (∃ pre post, cols = pre ++ m :: post ∧ m ∈ model_id_names
                 ∧ ∀ h, h ∈ pre → h ∉ model_id_names)
    ∨ ((∀ h, h ∈ cols → h ∉ model_id_names) ∧ head cols = Some m).
Proof.
  unfold detect_model_col.
  assert (∀ h : string, (∀ x, x ∈ @nil string → x ∉ model_id_names)) as Hnil.
  { intros _ x Hx. by apply elem_of_nil in Hx. }
  induction cols as [|h cols IH].
  - simpl. split; [done|].
    intros [(pre & post & Heq & _) | [_ [=]]]. by destruct pre.
  - simpl. case_bool_decide as Hh; simpl.
    + split.
      * intros [= <-]. left. exists [], cols. split; [done|]. split; [done|].
        by apply Hnil.
      * intros [(pre & post & Heq & Hm & Hpre) | [Hall _]].
        -- destruct pre as [|h' pre]; simpl in Heq; [congruence|].
           injection Heq as <- _. destruct (Hpre h); [left | done].
        -- destruct (Hall h); [left | done].
    + destruct (List.find _ cols) as [m'|] eqn:Hfind; simpl in *.
      * rewrite IH. split.
        -- intros [(pre & post & -> & Hm & Hpre) | [Hall _]].
           ++ left. exists (h :: pre), post. split; [done|]. split; [done|].
              intros x [->|Hx]%elem_of_cons; [done | by apply Hpre].
           ++ apply List.find_some in Hfind as [Hin Hdec].
              apply bool_decide_eq_true in Hdec.
              destruct (Hall m'); [by apply list_elem_of_In | done].
        -- intros [(pre & post & Heq & Hm & Hpre) | [Hall _]].
           ++ destruct pre as [|h' pre]; simpl in Heq; [congruence|].
              injection Heq as <- ->. left. exists pre, post.
              split; [done|]. split; [done|]. intros x Hx. apply Hpre. by right.
           ++ apply List.find_some in Hfind as [Hin Hdec].
              apply bool_decide_eq_true in Hdec.
              destruct (Hall m'); [right; by apply list_elem_of_In | done].
      * split.
        -- intros [= <-]. right. split; [|done].
           intros x [->|Hx]%elem_of_cons; [done|].
           apply list_elem_of_In in Hx.
           pose proof (List.find_none _ _ Hfind x Hx) as Hdec. simpl in Hdec.
           by apply bool_decide_eq_false in Hdec.
        -- intros [(pre & post & Heq & Hm & Hpre) | [_ [= <-]]]; [|done].
           destruct pre as [|h' pre]; simpl in Heq; [congruence|].
           injection Heq as <- ->.
           assert (In m (pre ++ m :: post)) as Hin.
           { apply in_or_app. right. by left. }
           pose proof (List.find_none _ _ Hfind m Hin) as Hdec. simpl in Hdec.
           by apply bool_decide_eq_false in Hdec.
Qed.

(** Column detection succeeds exactly when an identifier column is
    found and the gene source is usable. *)
Lemma detect_columns_inr cols c :
  (detect_columns (Some cols)).2 = inr c
  ↔ (detect_model_col cols).2 = inr (model_col c)
    ∧ (gene1_col c, gene2_col c, fusion_name_col c) = detect_gene_cols cols
    ∧ usable (detect_gene_cols cols) = true.
Proof.
  unfold detect_columns, usable. rewrite M_bind_snd_inr.
  destruct (detect_gene_cols cols) as [[g1 g2] fn].
  split.
  - intros (m & Hm & H).
    destruct (bool_decide (g1 = None) || bool_decide (g2 = None)); simpl in *.
    + destruct fn as [fc|]; simpl in *; [|discriminate].
      destruct (PyStr.truthy fc); simpl in *; [|discriminate].
      by injection H as <-.
    + by injection H as <-.
  - intros (Hm & [= <- <- <-] & Hus). exists (model_col c). split; [done|].
    destruct c as [m g1 g2 fn]; simpl in *.
    destruct (bool_decide (g1 = None) || bool_decide (g2 = None)); simpl in *.
    + destruct fn as [fc|]; simpl in *; [|discriminate].
      by destruct (PyStr.truthy fc).
    + done.
Qed.

End Detection.

(** With the headers FusionName, modelid the second header is ModelID up
    to case, yet the detector falls back to the first column. *)
Lemma C5_counterexample : ¬ identifier_matched_ignoring_case.
Proof.
  intros H.
  destruct (H ["FusionName"; "modelid"]
              {| model_col := "FusionName"; gene1_col := None; gene2_col := None;
                 fusion_name_col := Some "FusionName" |} "modelid")
    as (n & Hn & Hlow).
  - vm_compute. reflexivity.
  - right. left.
  - exists "ModelID". split; [left | vm_compute; reflexivity].
  - simpl in Hlow. unfold model_id_names in Hn.
    repeat (apply elem_of_cons in Hn as [-> | Hn]; [vm_compute in Hlow; discriminate|]).
    by apply elem_of_nil in Hn.
Qed.

(** C5 (amended). The identifier column is matched by exact,
    case-sensitive equality with ModelID, DepMap_ID, CellLineID or
    ModelId; the first such header is taken, and when no header is one
    of these names the first column is used whatever it is called. *)
Theorem C5_identifier_exact_match cols c :
  (detect_columns (Some cols)).2 = inr c →
  (∃ pre post,
      cols = pre ++ model_col c :: post
      ∧ model_col c ∈ ["ModelID"; "DepMap_ID"; "CellLineID"; "ModelId"]
      ∧ ∀ h, h ∈ pre → h ∉ ["ModelID"; "DepMap_ID"; "CellLineID"; "ModelId"])
  ∨ ((∀ h, h ∈ cols → h ∉ ["ModelID"; "DepMap_ID"; "CellLineID"; "ModelId"])
     ∧ head cols = Some (model_col c)).
Proof. intros (Hm & _)%detect_columns_inr. by apply detect_model_col_inr. Qed.

Lemma C5_identifier_exact_match_witness :
  let cols := ["FusionName"; "modelid"; "ModelId"; "ModelID"] in
  let c := {| model_col := "ModelId"; gene1_col := None; gene2_col := None;
              fusion_name_col := Some "FusionName" |} in
  (∃ pre post,
      cols = pre ++ model_col c :: post
      ∧ model_col c ∈ ["ModelID"; "DepMap_ID"; "CellLineID"; "ModelId"]
      ∧ ∀ h, h ∈ pre → h ∉ ["ModelID"; "DepMap_ID"; "CellLineID"; "ModelId"])
  ∨ ((∀ h, h ∈ cols → h ∉ ["ModelID"; "DepMap_ID"; "CellLineID"; "ModelId"])
     ∧ head cols = Some (model_col c)).
Proof.
  apply (C5_identifier_exact_match ["FusionName"; "modelid"; "ModelId"; "ModelID"]).
  vm_compute. reflexivity.
Defined.

(** ** Facts about the string methods *)

Section Strings.
Implicit Types (s sep a b : string) (c : ascii).

Lemma prefix_cons c sep d s :
  String.prefix (String c sep) (String d s)
  = if Ascii.eqb c d then String.prefix sep s else false.
Proof.
  simpl. destruct (ascii_dec c d) as [->|Hne].
  - by rewrite Ascii.eqb_refl.
  - apply Ascii.eqb_neq in Hne. by rewrite Hne.
Qed.

Lemma app_cons c a b : String c a +:+ b = String c (a +:+ b).
Proof. done. Qed.

Lemma prefix_app sep b : String.prefix sep (sep +:+ b) = true.
Proof.
  induction sep as [|c sep IH]; simpl; [by destruct b|].
  by destruct (ascii_dec c c).
Qed.

Lemma drop_app sep b : PyStr.drop (String.length sep) (sep +:+ b) = b.
Proof. induction sep as [|c sep IH]; simpl; [by destruct b | done]. Qed.

Lemma prefix_drop sep s :
  String.prefix sep s = true → s = sep +:+ PyStr.drop (String.length sep) s.
Proof.
  revert sep. induction s as [|d s IH]; intros [|c sep]; simpl; try done.
  destruct (ascii_dec c d) as [->|]; [|done]. intros H.
  change (String d s = String d (sep +:+ PyStr.drop (String.length sep) s)).
  f_equal. by apply IH.
Qed.

Lemma partition_unfold sep s :
  PyStr.partition sep s
  = if String.prefix sep s then Some ("", PyStr.drop (String.length sep) s)
    else match s with
         | "" => None
         | String c s' =>
             match PyStr.partition sep s' with
             | Some (a, b) => Some (String c a, b)
             | None => None
             end
         end.
Proof. by destruct s. Qed.

(** [partition] cuts [s] at an occurrence of [sep] ... *)
Lemma partition_Some sep s a b :
  PyStr.partition sep s = Some (a, b) → s = a +:+ sep +:+ b.
Proof.
  revert a. induction s as [|d s IH]; intros a; rewrite partition_unfold;
    destruct (String.prefix sep _) eqn:Hp; try done.
  - intros [= <- <-]. by apply prefix_drop in Hp.
  - intros [= <- <-]. by apply prefix_drop in Hp.
  - destruct (PyStr.partition sep s) as [[a0 b0]|]; [|done].
    intros [= <- <-]. rewrite app_cons. f_equal. by apply IH.
Qed.

(** ... namely at the first one. *)
Lemma partition_first sep s a b a' b' :
  PyStr.partition sep s = Some (a, b) → s = a' +:+ sep +:+ b' →
  String.length a ≤ String.length a'.
Proof.
  revert a a'. induction s as [|d s IH]; intros a a'; rewrite partition_unfold;
    destruct (String.prefix sep _) eqn:Hp; try done.
  - intros [= <- <-] _. simpl. lia.
  - intros [= <- <-] _. simpl. lia.
  - destruct (PyStr.partition sep s) as [[a0 b0]|] eqn:Hpart; [|done].
    intros [= <- <-] Hs. destruct a' as [|d' a''].
    + change ("" +:+ sep +:+ b') with (sep +:+ b') in Hs.
      rewrite Hs, prefix_app in Hp. done.
    + rewrite app_cons in Hs. injection Hs as <- Hs. simpl. apply le_n_S. by eapply IH.
Qed.

(** [partition] finds [sep] whenever it occurs. *)
Lemma partition_None sep s a b :
  PyStr.partition sep s = None → s ≠ a +:+ sep +:+ b.
Proof.
  revert a. induction s as [|d s IH]; intros a; rewrite partition_unfold;
    destruct (String.prefix sep _) eqn:Hp; try done.
  - intros _ Hs. destruct a; [|done].
    change ("" +:+ sep +:+ b) with (sep +:+ b) in Hs.
    rewrite Hs, prefix_app in Hp. done.
  - destruct (PyStr.partition sep s) as [[a0 b0]|] eqn:Hpart; [done|].
    intros _ Hs. destruct a as [|d' a''].
    + change ("" +:+ sep +:+ b) with (sep +:+ b) in Hs.
      rewrite Hs, prefix_app in Hp. done.
    + rewrite app_cons in Hs. injection Hs as <- Hs. by eapply IH.
Qed.

Lemma partition_no_char c sep s :
  no_char c s = true → PyStr.partition (String c sep) s = None.
Proof.
  induction s as [|d s IH]; [done|].
  intros H. unfold no_char in H. simpl in H. apply andb_prop in H as [Hd Hs].
  rewrite partition_unfold, prefix_cons.
  apply negb_true_iff in Hd. rewrite Hd.
  unfold no_char in IH. by rewrite IH.
Qed.

Lemma partition_app c sep a b :
  no_char c a = true →
  PyStr.partition (String c sep) (a +:+ String c sep +:+ b) = Some (a, b).
Proof.
  induction a as [|d a IH].
  - intros _. change ("" +:+ String c sep +:+ b) with (String c sep +:+ b).
    by rewrite partition_unfold, prefix_app, drop_app.
  - intros H. unfold no_char in H. simpl in H. apply andb_prop in H as [Hd Ha].
    change (String d a +:+ String c sep +:+ b)
      with (String d (a +:+ String c sep +:+ b)).
    rewrite partition_unfold, prefix_cons. apply negb_true_iff in Hd. rewrite Hd.
    unfold no_char in IH. by rewrite (IH Ha).
Qed.

Lemma lstrip_no_space s : no_space s = true → PyStr.lstrip s = s.
Proof.
  destruct s as [|c s]; [done|]. unfold no_space; simpl.
  intros [Hc _]%andb_prop. apply negb_true_iff in Hc. by rewrite Hc.
Qed.

Lemma rstrip_no_space s : no_space s = true → PyStr.rstrip s = s.
Proof.
  induction s as [|c s IH]; [done|]. unfold no_space; simpl.
  intros [Hc Hs]%andb_prop. apply negb_true_iff in Hc.
  unfold no_space in IH. rewrite (IH Hs). destruct s; [by rewrite Hc | done].
Qed.

Lemma strip_no_space s : no_space s = true → PyStr.strip s = s.
Proof.
  intros Hs. unfold PyStr.strip. rewrite lstrip_no_space by done.
  by apply rstrip_no_space.
Qed.

Lemma no_space_no_char s : no_space s = true → no_char " " s = true.
Proof.
  unfold no_space, no_char. induction s as [|c s IH]; [done|].
  intros H. simpl in H. apply andb_prop in H as [Hc Hs].
  change (negb (Ascii.eqb " " c) && all_chars (λ d, negb (Ascii.eqb " " d)) s = true).
  rewrite (IH Hs), andb_true_r.
  destruct (Ascii.eqb_spec " " c) as [<-|]; [|done]. by vm_compute in Hc.
Qed.

Lemma all_chars_app P s1 s2 :
  all_chars P (s1 +:+ s2) = all_chars P s1 && all_chars P s2.
Proof.
  induction s1 as [|c s1 IH]; [done|]. simpl. by rewrite IH, andb_assoc.
Qed.

(** [split] with a limit of one cut is [partition]. *)
Lemma split_once sep s :
  PyStr.split sep (Some 1) s
  = match PyStr.partition sep s with
    | Some (a, b) => [a; b]
    | None => [s]
    end.
Proof. unfold PyStr.split; simpl. by destruct (PyStr.partition sep s) as [[a b]|]. Qed.

(** The first piece of an unlimited [split] is the text before the
    first occurrence of the separator. *)
Lemma split_head sep s :
  index (PyStr.split sep None s) 0
  = inr (match PyStr.partition sep s with Some (a, _) => a | None => s end).
Proof.
  unfold PyStr.split; simpl. destruct s as [|c s].
  - simpl. destruct sep; simpl; [done|]. done.
  - unfold String.length; fold String.length. unfold PyStr.split_upto.
    by destruct (PyStr.partition sep (String c s)) as [[a b]|].
Qed.

End Strings.

(** ** What one row yields (claims C6 and C7) *)

Section Extract.
Implicit Types (c : columns) (valid : gset string) (row : DictReader.row).

Lemma cut_name_spec fname a b :
  cut_name fname = Some (a, b) →
  (fname = a +:+ "--" +:+ b
   ∧ ∀ a' b', fname = a' +:+ "--" +:+ b' → String.length a ≤ String.length a')
  ∨ (fname = a +:+ "-" +:+ b
     ∧ (∀ a' b', fname ≠ a' +:+ "--" +:+ b')
     ∧ ∀ a' b', fname = a' +:+ "-" +:+ b' → String.length a ≤ String.length a').
Proof.
  unfold cut_name. destruct (PyStr.partition "--" fname) as [[a0 b0]|] eqn:H2.
  - intros [= <- <-]. left. split; [by apply partition_Some|].
    intros a' b'. by apply (partition_first _ _ _ _ _ _ H2).
  - intros H1. right. split; [by apply partition_Some|]. split.
    + intros a' b'. by apply partition_None.
    + intros a' b'. by apply (partition_first _ _ _ _ _ _ H1).
Qed.

Lemma strip_annotation_spec g : strip_annotation g = inr (unannotated g).
Proof.
  unfold strip_annotation, unannotated, PyStr.contains.
  destruct (PyStr.partition " (" g) as [[a b]|] eqn:Hp; [|done].
  rewrite split_head, Hp. done.
Qed.

Lemma genes_of_name_spec c row fc v :
  fusion_name_col c = Some fc → row !! fc = Some (Some v) →
  genes_of_name c row
  = inr (match cut_name (PyStr.strip v) with
         | Some (a, b) => Some (PyStr.strip a, PyStr.strip b)
         | None => None
         end).
Proof.
  intros Hfc Hv. unfold genes_of_name, getitem, cut_name, PyStr.contains.
  rewrite Hfc; simpl. rewrite Hv; simpl. rewrite !split_once.
  destruct (PyStr.partition "--" (PyStr.strip v)) as [[a b]|]; [done|].
  by destruct (PyStr.partition "-" (PyStr.strip v)) as [[a b]|].
Qed.

Lemma genes_of_columns_spec c row k1 k2 v1 v2 :
  gene1_col c = Some k1 → gene2_col c = Some k2 →
  row !! k1 = Some (Some v1) → row !! k2 = Some (Some v2) →
  genes_of_columns c row
  = inr (unannotated (PyStr.strip v1), unannotated (PyStr.strip v2)).
Proof.
  intros Hk1 Hk2 Hv1 Hv2. unfold genes_of_columns, getitem.
  rewrite Hk1, Hk2; simpl. rewrite Hv1, Hv2; simpl.
  by rewrite !strip_annotation_spec.
Qed.

(** Line 83: a row for an unknown cell line is skipped. *)
Lemma extract_unknown_cell_line c valid row m :
  row !! model_col c = Some (Some m) → PyStr.strip m ∉ valid →
  extract c valid row = inr None.
Proof.
  intros Hm Hvalid. unfold extract, getitem; simpl. rewrite Hm; simpl.
  by rewrite bool_decide_true.
Qed.

Lemma accept_spec model_id pair :
  (match Some pair with
   | Some (g1, g2) =>
       if negb (PyStr.truthy g1) || negb (PyStr.truthy g2) then mret None
       else mret (Some (model_id, g1, g2))
   | None => mret None
   end : E (option fusion))
  = inr (accept model_id pair).
Proof.
  destruct pair as [g1 g2]. unfold accept; simpl.
  by destruct (PyStr.truthy g1), (PyStr.truthy g2).
Qed.

(** A row read through the fusion-name column. *)
Lemma extract_by_name c valid row fc m v :
  truthy (gene1_col c) && truthy (gene2_col c) = false →
  fusion_name_col c = Some fc → fc ≠ "" →
  row !! model_col c = Some (Some m) → PyStr.strip m ∈ valid →
  row !! fc = Some (Some v) →
  extract c valid row
  = inr (cut_name (PyStr.strip v)
         ≫= λ '(a, b), accept (PyStr.strip m) (PyStr.strip a, PyStr.strip b)).
Proof.
  intros Hmode Hfc Hne Hm Hvalid Hv. unfold extract, getitem; simpl.
  rewrite Hm; simpl. rewrite bool_decide_false by (by intros []).
  rewrite Hmode. rewrite Hfc at 1. simpl.
  apply truthy_true in Hne. rewrite Hne.
  rewrite (genes_of_name_spec c row fc v) by done. simpl.
  destruct (cut_name (PyStr.strip v)) as [[a b]|]; [|done].
  apply (accept_spec (PyStr.strip m) (PyStr.strip a, PyStr.strip b)).
Qed.

(** A row read through the two gene columns. *)
Lemma extract_by_columns c valid row k1 k2 m v1 v2 :
  gene1_col c = Some k1 → gene2_col c = Some k2 → k1 ≠ "" → k2 ≠ "" →
  row !! model_col c = Some (Some m) → PyStr.strip m ∈ valid →
  row !! k1 = Some (Some v1) → row !! k2 = Some (Some v2) →
  extract c valid row
  = inr (accept (PyStr.strip m)
           (unannotated (PyStr.strip v1), unannotated (PyStr.strip v2))).
Proof.
  intros Hk1 Hk2 Hne1 Hne2 Hm Hvalid Hv1 Hv2. unfold extract, getitem; simpl.
  rewrite Hm; simpl. rewrite bool_decide_false by (by intros []).
  rewrite Hk1, Hk2 at 1. simpl.
  apply truthy_true in Hne1, Hne2. rewrite Hne1, Hne2. simpl.
  rewrite (genes_of_columns_spec c row k1 k2 v1 v2) by done. simpl.
  apply (accept_spec (PyStr.strip m)
           (unannotated (PyStr.strip v1), unannotated (PyStr.strip v2))).
Qed.

End Extract.

(** A name of three segments: the first two segments are BCR and ABL1,
    but the script cuts once and keeps the whole remainder as the second
    gene. *)
Lemma C6_counterexample :
  let row := DictReader.make_row ["ModelID"; "FusionName"] ["ACH-1"; "BCR-ABL1-AS1"] in
  first_two_segments "BCR-ABL1-AS1" = Some ("BCR", "ABL1")
  ∧ extract name_columns {["ACH-1"]} row = inr (Some ("ACH-1", "BCR", "ABL1-AS1"))
  ∧ extract name_columns {["ACH-1"]} row
    ≠ inr ((λ '(a, b), ("ACH-1", a, b)) <$> first_two_segments "BCR-ABL1-AS1").
Proof.
  simpl. split; [vm_compute; reflexivity|]. split; [vm_compute; reflexivity|].
  vm_compute. discriminate.
Qed.

(** C6 (amended). When the gene columns are missing and a fusion-name
    column is used, the name is cut once, at the first double hyphen if
    it has one and else at the first single hyphen; the stripped text
    before the cut and the stripped whole remainder after it are the
    gene pair.  A name without a hyphen, or with an empty side, yields
    no event. *)
Theorem C6_name_cut_once c valid row fc m v :
  truthy (gene1_col c) && truthy (gene2_col c) = false →
  fusion_name_col c = Some fc → fc ≠ "" →
  row !! model_col c = Some (Some m) → PyStr.strip m ∈ valid →
  row !! fc = Some (Some v) →
  let fname := PyStr.strip v in
  extract c valid row
  = inr (cut_name fname
         ≫= λ '(a, b), accept (PyStr.strip m) (PyStr.strip a, PyStr.strip b))
  ∧ (cut_name fname = None →
     ∀ a b, fname ≠ a +:+ "--" +:+ b ∧ fname ≠ a +:+ "-" +:+ b)
  ∧ (∀ a b, cut_name fname = Some (a, b) →
       (fname = a +:+ "--" +:+ b
        ∧ ∀ a' b', fname = a' +:+ "--" +:+ b' → String.length a ≤ String.length a')
       ∨ (fname = a +:+ "-" +:+ b
          ∧ (∀ a' b', fname ≠ a' +:+ "--" +:+ b')
          ∧ ∀ a' b', fname = a' +:+ "-" +:+ b' → String.length a ≤ String.length a')).
Proof.
  intros Hmode Hfc Hne Hm Hvalid Hv fname.
  split; [by apply (extract_by_name c valid row fc m v)|]. split.
  - unfold cut_name.
    destruct (PyStr.partition "--" fname) as [p|] eqn:H2; [done|].
    intros H1 a b. split; by apply partition_None.
  - intros a b. apply cut_name_spec.
Qed.

Lemma C6_name_cut_once_witness :
  let row := DictReader.make_row ["ModelID"; "FusionName"] ["ACH-1"; " HLA-A--HLA-B "] in
  extract name_columns {["ACH-1"]} row = inr (Some ("ACH-1", "HLA-A", "HLA-B")).
Proof.
  intros row.
  destruct (C6_name_cut_once name_columns {["ACH-1"]} row "FusionName"
              "ACH-1" " HLA-A--HLA-B ") as [-> _].
  - reflexivity.
  - reflexivity.
  - discriminate.
  - vm_compute. reflexivity.
  - vm_compute. reflexivity.
  - vm_compute. reflexivity.
  - vm_compute. reflexivity.
Defined.

(** ** Trimming and cutting joined names *)

Section Trimming.
Implicit Types (s t : string) (c : ascii).

Lemma rstrip_cons c s :
  PyStr.isspace c = false → PyStr.rstrip (String c s) = String c (PyStr.rstrip s).
Proof. intros Hc. simpl. rewrite Hc. by destruct (PyStr.rstrip s). Qed.

Lemma lstrip_app s c t :
  PyStr.isspace c = false →
  PyStr.lstrip (s +:+ String c t) = PyStr.lstrip s +:+ String c t.
Proof.
  intros Hc. induction s as [|d s IH].
  - simpl. by rewrite Hc.
  - rewrite app_cons. simpl. by destruct (PyStr.isspace d).
Qed.

Lemma rstrip_app s t :
  PyStr.rstrip t ≠ "" → PyStr.rstrip (s +:+ t) = s +:+ PyStr.rstrip t.
Proof.
  intros Ht. induction s as [|d s IH]; [done|].
  rewrite !app_cons. simpl. rewrite IH.
  destruct (s +:+ PyStr.rstrip t) eqn:Heq; [|done].
  destruct s; [|done]. by destruct Ht.
Qed.

Lemma lstrip_idemp s : PyStr.lstrip (PyStr.lstrip s) = PyStr.lstrip s.
Proof.
  induction s as [|c s IH]; [done|]. simpl.
  destruct (PyStr.isspace c) eqn:Hc; [done|]. simpl. by rewrite Hc.
Qed.

Lemma rstrip_idemp s : PyStr.rstrip (PyStr.rstrip s) = PyStr.rstrip s.
Proof.
  induction s as [|c s IH]; [done|]. simpl.
  destruct (PyStr.rstrip s) as [|d r] eqn:Hr.
  - destruct (PyStr.isspace c) eqn:Hc; [done|]. simpl. by rewrite Hc.
  - change (PyStr.rstrip (String c (String d r)) = String c (String d r)).
    simpl in IH. simpl. by rewrite IH.
Qed.

Lemma lstrip_rstrip s : PyStr.lstrip (PyStr.rstrip s) = PyStr.rstrip (PyStr.lstrip s).
Proof.
  induction s as [|c s IH]; [done|].
  destruct (PyStr.isspace c) eqn:Hc.
  - simpl. rewrite Hc. rewrite <- IH.
    destruct (PyStr.rstrip s) as [|d r]; [done|]. simpl. by rewrite Hc.
  - rewrite rstrip_cons by done. simpl. rewrite Hc. by rewrite rstrip_cons.
Qed.

(** Trimming a name joined by a double hyphen trims its two ends. *)
Lemma strip_joined s t :
  PyStr.strip (s +:+ "--" +:+ t) = PyStr.lstrip s +:+ "--" +:+ PyStr.rstrip t.
Proof.
  unfold PyStr.strip.
  change ("--" +:+ t) with (String "-" (String "-" t)).
  change ("--" +:+ PyStr.rstrip t) with (String "-" (String "-" (PyStr.rstrip t))).
  rewrite lstrip_app by done.
  rewrite rstrip_app.
  - by rewrite !rstrip_cons.
  - by rewrite !rstrip_cons.
Qed.

Lemma strip_lstrip s : PyStr.strip (PyStr.lstrip s) = PyStr.strip s.
Proof. unfold PyStr.strip. by rewrite lstrip_idemp. Qed.

Lemma strip_rstrip s : PyStr.strip (PyStr.rstrip s) = PyStr.strip s.
Proof. unfold PyStr.strip. by rewrite lstrip_rstrip, rstrip_idemp. Qed.

Lemma contains_false sep s :
  PyStr.contains sep s = false ↔ PyStr.partition sep s = None.
Proof. unfold PyStr.contains. by destruct (PyStr.partition sep s). Qed.

Lemma partition_None_tail sep c s :
  PyStr.partition sep (String c s) = None → PyStr.partition sep s = None.
Proof.
  rewrite partition_unfold. destruct (String.prefix sep (String c s)); [done|].
  by destruct (PyStr.partition sep s) as [[a b]|].
Qed.

Lemma partition_None_lstrip sep s t :
  PyStr.partition sep (s +:+ t) = None →
  PyStr.partition sep (PyStr.lstrip s +:+ t) = None.
Proof.
  induction s as [|c s IH]; [done|]. rewrite app_cons. simpl.
  destruct (PyStr.isspace c); [|done]. intros H. by apply IH, (partition_None_tail sep c).
Qed.

Lemma prefix_nil s : String.prefix "" s = true.
Proof. by destruct s. Qed.

(** Whether a double hyphen starts at the head of [String c (s ++ "-" ++ t)]
    does not depend on [t]. *)
Lemma prefix_hyphens c s t :
  String.prefix "--" (String c (s +:+ "-" +:+ t))
  = String.prefix "--" (String c (s +:+ "-")).
Proof.
  rewrite !prefix_cons. destruct (Ascii.eqb "-" c); [|done].
  destruct s as [|d s].
  - change ("" +:+ "-" +:+ t) with (String "-" t).
    change ("" +:+ "-") with (String "-" "").
    by rewrite !prefix_cons, !prefix_nil.
  - by rewrite !app_cons, !prefix_cons, !prefix_nil.
Qed.

(** A name joined by a double hyphen is cut where it was joined, unless
    the first part followed by a hyphen already holds a double hyphen. *)
Lemma partition_joined s t :
  PyStr.partition "--" (s +:+ "-") = None →
  PyStr.partition "--" (s +:+ "--" +:+ t) = Some (s, t).
Proof.
  induction s as [|c s IH]; intros Hs.
  - change ("" +:+ "--" +:+ t) with ("--" +:+ t).
    by rewrite partition_unfold, prefix_app, drop_app.
  - rewrite app_cons in Hs. rewrite partition_unfold in Hs.
    rewrite (app_cons c s), partition_unfold.
    change (s +:+ "--" +:+ t) with (s +:+ "-" +:+ String "-" t).
    rewrite prefix_hyphens.
    destruct (String.prefix "--" (String c (s +:+ "-"))); [done|].
    change (s +:+ "-" +:+ String "-" t) with (s +:+ "--" +:+ t).
    rewrite IH; [done|]. by destruct (PyStr.partition "--" (s +:+ "-")) as [[a b]|].
Qed.

End Trimming.

(** ** The two ways to name the gene pair (claim C7) *)

Section Fallback.
Variables (args cell_lines : list string) (m g1 g2 : string).

Hypothesis g1_plain : PyStr.contains " (" (PyStr.strip g1) = false.
Hypothesis g2_plain : PyStr.contains " (" (PyStr.strip g2) = false.
Hypothesis g1_joined : PyStr.contains "--" (g1 +:+ "-") = false.

Lemma cut_joined :
  cut_name (PyStr.strip (g1 +:+ "--" +:+ g2))
  = Some (PyStr.lstrip g1, PyStr.rstrip g2).
Proof.
  rewrite strip_joined. unfold cut_name. rewrite partition_joined; [done|].
  by apply partition_None_lstrip, contains_false.
Qed.

Lemma unannotated_plain g :
  PyStr.contains " (" g = false → unannotated g = g.
Proof. intros Hg%contains_false. unfold unannotated. by rewrite Hg. Qed.

Lemma read_name_row :
  read_rows name_columns (valid_cell_lines (name_input args cell_lines m g1 g2))
    (DictReader.rows (fusion_csv (name_input args cell_lines m g1 g2))) []
  = inr (the_event cell_lines m g1 g2).
Proof.
  unfold the_event, valid_cell_lines; simpl.
  change (DictReader.rows _)
    with [DictReader.make_row ["ModelID"; "FusionName"] [m; g1 +:+ "--" +:+ g2]].
  simpl. case_bool_decide as Hvalid.
  - rewrite (extract_by_name _ _ _ "FusionName" m (g1 +:+ "--" +:+ g2));
      [|done..].
    rewrite cut_joined. simpl. by rewrite strip_lstrip, strip_rstrip.
  - by rewrite (extract_unknown_cell_line _ _ _ m).
Qed.

Lemma read_columns_row :
  read_rows gene_columns (valid_cell_lines (columns_input args cell_lines m g1 g2))
    (DictReader.rows (fusion_csv (columns_input args cell_lines m g1 g2))) []
  = inr (the_event cell_lines m g1 g2).
Proof.
  unfold the_event, valid_cell_lines; simpl.
  change (DictReader.rows _)
    with [DictReader.make_row ["ModelID"; "LeftGene"; "RightGene"] [m; g1; g2]].
  simpl. case_bool_decide as Hvalid.
  - rewrite (extract_by_columns _ _ _ "LeftGene" "RightGene" m g1 g2); [|done..].
    by rewrite !unannotated_plain by done.
  - by rewrite (extract_unknown_cell_line _ _ _ m).
Qed.

End Fallback.

(** An annotation in parentheses is dropped from a gene column (lines
    90-93) but kept in a fusion name: the name BCR--ABL1 (ENSG1) yields
    the second gene [ABL1 (ENSG1)], the columns BCR and ABL1 (ENSG1)
    yield ABL1. *)
Lemma C7_counterexample : ¬ name_fallback_agrees_on_every_row.
Proof.
  intros H.
  specialize (H ["process_translocations.py"; "OmicsFusionFiltered.csv"]
                ["ACH-1"] "ACH-1" "BCR" "ABL1 (ENSG1)").
  vm_compute in H. discriminate.
Qed.

(** C7 (amended). The fusion-name fallback and the explicit gene columns
    agree on every row whose gene names carry no annotation (no [" ("]
    once trimmed) and whose name is cut where it was joined (the first
    gene followed by a hyphen holds no double hyphen): a file whose only
    row has the name [g1--g2] loads the same events as a file whose only
    row has the gene columns [g1] and [g2]; with a valid cell line and
    two non-empty genes that is the one event of the trimmed cell line
    and gene names. *)
Theorem C7_name_fallback_agrees args cell_lines m g1 g2 :
  PyStr.contains " (" (PyStr.strip g1) = false →
  PyStr.contains " (" (PyStr.strip g2) = false →
  PyStr.contains "--" (g1 +:+ "-") = false →
  (load (name_input args cell_lines m g1 g2)).2
  = (load (columns_input args cell_lines m g1 g2)).2
  ∧ (2 ≤ length args → PyStr.strip m ∈ cell_lines →
     PyStr.strip g1 ≠ "" → PyStr.strip g2 ≠ "" →
     (load (columns_input args cell_lines m g1 g2)).2
     = inr [(PyStr.strip m, PyStr.strip g1, PyStr.strip g2)]).
Proof.
  intros Hg1 Hg2 Hcut.
  destruct (decide (length args < 2)) as [Hargs|Hargs].
  - split; [|lia]. unfold load; simpl. by rewrite !bool_decide_true.
  - assert ((load (name_input args cell_lines m g1 g2)).2
            = inr (the_event cell_lines m g1 g2)) as Hname.
    { apply load_inr. split; [simpl; lia|]. exists name_columns.
      split; [vm_compute; reflexivity | by apply read_name_row]. }
    assert ((load (columns_input args cell_lines m g1 g2)).2
            = inr (the_event cell_lines m g1 g2)) as Hcols.
    { apply load_inr. split; [simpl; lia|]. exists gene_columns.
      split; [vm_compute; reflexivity | by apply read_columns_row]. }
    split; [congruence|]. intros _ Hm Hne1 Hne2. rewrite Hcols.
    unfold the_event, accept; simpl.
    rewrite bool_decide_true by by apply elem_of_list_to_set.
    apply truthy_true in Hne1, Hne2. by rewrite Hne1, Hne2.
Qed.

Lemma C7_name_fallback_agrees_witness :
  let args := ["process_translocations.py"; "OmicsFusionFiltered.csv"] in
  ((load (name_input args ["ACH-1"] "ACH-1" "BCR" "ABL1")).2
   = (load (columns_input args ["ACH-1"] "ACH-1" "BCR" "ABL1")).2
   ∧ (load (columns_input args ["ACH-1"] "ACH-1" "BCR" "ABL1")).2
     = inr [("ACH-1", "BCR", "ABL1")])
  ∧ ((load (name_input args ["ACH-1"] " ACH-1" "HLA-A " " HLA-B")).2
     = (load (columns_input args ["ACH-1"] " ACH-1" "HLA-A " " HLA-B")).2
     ∧ (load (columns_input args ["ACH-1"] " ACH-1" "HLA-A " " HLA-B")).2
       = inr [("ACH-1", "HLA-A", "HLA-B")]).
Proof.
  intros args. split.
  - destruct (C7_name_fallback_agrees args ["ACH-1"] "ACH-1" "BCR" "ABL1")
      as [Heq Hev]; [reflexivity..|].
    split; [exact Heq|]. apply Hev.
    + simpl. lia.
    + vm_compute. left.
    + discriminate.
    + discriminate.
  - destruct (C7_name_fallback_agrees args ["ACH-1"] " ACH-1" "HLA-A " " HLA-B")
      as [Heq Hev]; [reflexivity..|].
    split; [exact Heq|]. apply Hev.
    + simpl. lia.
    + vm_compute. left.
    + vm_compute. discriminate.
    + vm_compute. discriminate.
Defined.

(** ** Fatal exits and skipped rows (claim C9) *)

Section Exits.
Implicit Types (inp : input) (cols : list string) (c : columns).

Lemma M_bind_inr {A B} (m : M A) (f : A → M B) log a :
  m = (log, inr a) → m ≫= f = ((log ++ (f a).1)%list, (f a).2).
Proof. intros ->. simpl. by destruct (f a). Qed.

(** With at least one header, finding the identifier column cannot
    fail. *)
Lemma detect_model_col_cons h cols :
  ∃ log m, detect_model_col (h :: cols) = (log, inr m).
Proof.
  unfold detect_model_col. destruct (List.find _ (h :: cols)) as [m|].
  - by eexists _, _.
  - by eexists _, _.
Qed.

Lemma detect_columns_unusable h cols :
  usable (detect_gene_cols (h :: cols)) = false →
  ∃ log, detect_columns (Some (h :: cols))
         = ((log ++ [MsgErrorNoColumns])%list, inl (SysExit 1)).
Proof.
  intros Hus. unfold detect_columns, usable in *.
  destruct (detect_model_col_cons h cols) as (log & m & Hm).
  rewrite (M_bind_inr _ _ _ _ Hm). exists log.
  destruct (detect_gene_cols (h :: cols)) as [[g1 g2] fn].
  apply orb_false_elim in Hus as [Hgenes Hfn].
  apply negb_false_iff in Hgenes. rewrite Hgenes.
  destruct fn as [fc|]; simpl in *; [|done]. by rewrite Hfn.
Qed.

Lemma detect_columns_usable h cols :
  usable (detect_gene_cols (h :: cols)) = true →
  ∃ log c, detect_columns (Some (h :: cols)) = (log, inr c).
Proof.
  intros Hus. unfold detect_columns, usable in *.
  destruct (detect_model_col_cons h cols) as (log & m & Hm).
  rewrite (M_bind_inr _ _ _ _ Hm).
  destruct (detect_gene_cols (h :: cols)) as [[g1 g2] fn].
  destruct (bool_decide (g1 = None) || bool_decide (g2 = None)); simpl in *.
  - destruct fn as [fc|]; simpl in *; [|done]. rewrite Hus. simpl. by eexists _, _.
  - by eexists _, _.
Qed.

(** The first fatal exit: no argument. *)
Lemma main_usage inp :
  length (argv inp) < 2 → main inp = ([MsgUsage], inl (SysExit 1)).
Proof.
  intros Hargv. unfold main, run, load. by rewrite bool_decide_true.
Qed.

(** The second fatal exit: a header from which no gene source can be
    resolved. *)
Lemma main_no_gene_source inp h cols :
  2 ≤ length (argv inp) →
  DictReader.fieldnames (fusion_csv inp) = Some (h :: cols) →
  usable (detect_gene_cols (h :: cols)) = false →
  ∃ log, main inp = ((log ++ [MsgErrorNoColumns])%list, inl (SysExit 1)).
Proof.
  intros Hargv Hcols Hus. unfold main, run, load.
  rewrite bool_decide_false by lia. rewrite Hcols.
  destruct (detect_columns_unusable h cols Hus) as (log & Hdet).
  rewrite Hdet. simpl.
  by exists (MsgLoaded (size (valid_cell_lines inp))
             :: MsgColumns (Some (h :: cols)) :: log).
Qed.

(** Past column detection the script never calls [sys.exit]. *)
Lemma main_sys_exit inp code :
  (main inp).2 = inl (SysExit code) →
  code = 1%Z
  ∧ (length (argv inp) < 2
     ∨ ∃ h cols, DictReader.fieldnames (fusion_csv inp) = Some (h :: cols)
                 ∧ usable (detect_gene_cols (h :: cols)) = false).
Proof.
  destruct (decide (length (argv inp) < 2)) as [Hargv|Hargv].
  { rewrite main_usage by done. intros [= <-]. auto. }
  destruct (DictReader.fieldnames (fusion_csv inp)) as [[|h cols]|] eqn:Hcols.
  - unfold main, run, load. rewrite bool_decide_false by lia. by rewrite Hcols.
  - destruct (usable (detect_gene_cols (h :: cols))) eqn:Hus.
    + destruct (detect_columns_usable h cols Hus) as (log & c & Hdet).
      unfold main, run, load. rewrite bool_decide_false by lia.
      rewrite Hcols, Hdet. simpl.
      destruct (read_rows _ _ _ _) as [e|fusions]; simpl; [done|].
      by rewrite build_output_spec.
    + destruct (main_no_gene_source inp h cols) as (log & ->); [lia | done..|].
      intros [= <-]. split; [done|]. right. by exists h, cols.
  - unfold main, run, load. rewrite bool_decide_false by lia. by rewrite Hcols.
Qed.

(** An empty or blank name has no hyphen and yields nothing; neither
    does an empty gene column. *)
Lemma accept_empty model_id g1 g2 :
  g1 = "" ∨ g2 = "" → accept model_id (g1, g2) = None.
Proof.
  unfold accept; simpl. intros [-> | ->]; [done|].
  by rewrite andb_false_r.
Qed.

End Exits.

(** ** Files without short records *)

Section Complete.
Implicit Types (names record cols : list string) (c : columns)
  (row : DictReader.row).

Lemma foldl_insert_present (l : list (string * string)) (d : DictReader.row) k :
  present d k ∨ k ∈ l.*1 →
  present (foldl (λ d kv, <[kv.1 := Some kv.2]> d) d l) k.
Proof.
  revert d. induction l as [|[k1 v1] l IH]; intros d; simpl.
  - intros [H | H]; [done | by apply elem_of_nil in H].
  - intros [[v Hv] | [-> | H]%elem_of_cons]; apply IH.
    + left. destruct (decide (k1 = k)) as [->|Hne].
      * exists v1. apply lookup_insert_eq.
      * exists v. by rewrite lookup_insert_ne.
    + left. exists v1. apply lookup_insert_eq.
    + by right.
Qed.

(** A record at least as long as the header gives every field a
    value. *)
Lemma make_row_present names record k :
  length names ≤ length record → k ∈ names →
  present (DictReader.make_row names record) k.
Proof.
  intros Hlen Hk. unfold DictReader.make_row.
  rewrite skipn_all2 by done. simpl.
  apply foldl_insert_present. right. by rewrite fst_zip.
Qed.

Lemma classify_among (X : list string) found h :
  h ∈ X →
  among X found.1.1 ∧ among X found.1.2 ∧ among X found.2 →
  among X (classify found h).1.1 ∧ among X (classify found h).1.2
  ∧ among X (classify found h).2.
Proof.
  destruct found as [[g1 g2] fn]. simpl. intros Hh (H1 & H2 & H3).
  assert (among X (Some h)) as Hsome by (by intros k [= <-]).
  repeat case_bool_decide; done.
Qed.

Lemma detect_gene_cols_among cols :
  among cols (detect_gene_cols cols).1.1
  ∧ among cols (detect_gene_cols cols).1.2
  ∧ among cols (detect_gene_cols cols).2.
Proof.
  unfold detect_gene_cols.
  assert (∀ (X l : list string) found,
            (∀ h, h ∈ l → h ∈ X) →
            among X found.1.1 ∧ among X found.1.2 ∧ among X found.2 →
            among X (foldl classify found l).1.1
            ∧ among X (foldl classify found l).1.2
            ∧ among X (foldl classify found l).2) as Hfold.
  { intros X l. induction l as [|h l IH]; intros found Hl Hfound; [done|].
    simpl. apply IH.
    - intros x Hx. apply Hl. by right.
    - apply classify_among; [apply Hl; left | done]. }
  apply (Hfold cols cols (None, None, None)); [done|].
  by repeat split.
Qed.

Lemma truthy_Some (o : option string) :
  truthy o = true → ∃ k, o = Some k ∧ k ≠ "".
Proof.
  destruct o as [k|]; [|done]. simpl. intros Hk%truthy_true. by exists k.
Qed.

(** A row with all its fields cannot raise. *)
Lemma extract_present c valid row :
  present row (model_col c) →
  (∀ k, gene1_col c = Some k → present row k) →
  (∀ k, gene2_col c = Some k → present row k) →
  (∀ k, fusion_name_col c = Some k → present row k) →
  ∃ r, extract c valid row = inr r.
Proof.
  intros [m Hm] H1 H2 Hfn.
  destruct (decide (PyStr.strip m ∈ valid)) as [Hvalid|Hvalid];
    [|by rewrite (extract_unknown_cell_line c valid row m); eauto].
  destruct (truthy (gene1_col c) && truthy (gene2_col c)) eqn:Hmode.
  - apply andb_prop in Hmode as [(k1 & Hk1 & Hne1)%truthy_Some (k2 & Hk2 & Hne2)%truthy_Some].
    destruct (H1 _ Hk1) as [v1 Hv1], (H2 _ Hk2) as [v2 Hv2].
    rewrite (extract_by_columns c valid row k1 k2 m v1 v2) by done. eauto.
  - destruct (truthy (fusion_name_col c)) eqn:Hname.
    + apply truthy_Some in Hname as (fc & Hfc & Hne).
      destruct (Hfn _ Hfc) as [v Hv].
      rewrite (extract_by_name c valid row fc m v) by done. eauto.
    + unfold extract, getitem; simpl. rewrite Hm; simpl.
      rewrite bool_decide_false by (by intros []).
      rewrite Hmode, Hname. simpl. eauto.
Qed.

Lemma read_rows_present c valid rows fusions :
  (∀ row, row ∈ rows → ∃ r, extract c valid row = inr r) →
  ∃ fusions', read_rows c valid rows fusions = inr fusions'.
Proof.
  revert fusions. induction rows as [|row rows IH]; intros fusions Hrows; simpl.
  - by eexists.
  - destruct (Hrows row) as [r ->]; [left|]. simpl.
    apply IH. intros row' Hrow'. apply Hrows. by right.
Qed.

(** With its argument, a usable header and no short record, the rows
    cannot stop the script.  (This is about records the csv reader has
    delivered; a file the reader itself refuses is outside of it.) *)
Lemma main_completes inp h cols records :
  2 ≤ length (argv inp) →
  fusion_csv inp = (h :: cols) :: records →
  usable (detect_gene_cols (h :: cols)) = true →
  (∀ record, record ∈ records → record ≠ [] →
             length (h :: cols) ≤ length record) →
  ∃ out, (main inp).2 = inr out.
Proof.
  intros Hargv Hcsv Hus Hlong.
  destruct (detect_columns_usable h cols Hus) as (log & c & Hdet).
  assert ((detect_columns (Some (h :: cols))).2 = inr c) as Hc by by rewrite Hdet.
  pose proof Hc as (Hm & Hgenes & _)%detect_columns_inr.
  pose proof (detect_gene_cols_among (h :: cols)) as Hamong.
  rewrite <- Hgenes in Hamong. simpl in Hamong. destruct Hamong as (H1 & H2 & Hfn).
  assert (model_col c ∈ h :: cols) as Hmodel.
  { apply detect_model_col_inr in Hm as [(pre & post & -> & _) | [_ [= <-]]].
    - apply elem_of_app. right. left.
    - left. }
  destruct (read_rows_present c (valid_cell_lines inp)
              (DictReader.rows (fusion_csv inp)) []) as [fusions Hrows].
  { rewrite Hcsv. simpl. intros row (record & -> & [Hne Hin]%list_elem_of_filter)%list_elem_of_fmap.
    specialize (Hlong record Hin Hne).
    apply extract_present.
    - by apply make_row_present.
    - intros k Hk. apply make_row_present; [done | by apply H1].
    - intros k Hk. apply make_row_present; [done | by apply H2].
    - intros k Hk. apply make_row_present; [done | by apply Hfn]. }
  eexists. apply run_inr. exists fusions. split; [|reflexivity].
  apply load_inr. split; [done|]. exists c. split; [|done].
  rewrite Hcsv. exact Hc.
Qed.

(** The condition on the lengths is needed: a record that is too short
    for a column the script reads has [None] there, and [None.strip()]
    raises. *)
Lemma short_record_raises :
  (main short_record_input).2 = inl (Uncaught AttributeError).
Proof. vm_compute. reflexivity. Qed.

End Complete.

(** What the script does on purpose.  For a header with at least one
    column it calls [sys.exit(1)] exactly when the argument is missing
    or no gene-column pair and no fusion-name column can be resolved,
    with the usage message or the column error as the last thing
    printed, and it never uses another exit code.  A row that names an
    unknown cell line, has a fusion name that cannot be cut into two
    non-empty parts, or has an empty gene value is skipped without an
    exception, provided the fields it reads are present. *)
Lemma sys_exit_cases_and_skipped_rows :
  (∀ inp h cols,
     DictReader.fieldnames (fusion_csv inp) = Some (h :: cols) →
     ((main inp).2 = inl (SysExit 1)
      ↔ length (argv inp) < 2 ∨ usable (detect_gene_cols (h :: cols)) = false)
     ∧ (length (argv inp) < 2 → main inp = ([MsgUsage], inl (SysExit 1)))
     ∧ (2 ≤ length (argv inp) → usable (detect_gene_cols (h :: cols)) = false →
        ∃ log, main inp = ((log ++ [MsgErrorNoColumns])%list, inl (SysExit 1))))
  ∧ (∀ inp code, (main inp).2 = inl (SysExit code) → code = 1%Z)
  ∧ (∀ c valid row m,
       row !! model_col c = Some (Some m) → PyStr.strip m ∉ valid →
       extract c valid row = inr None)
  ∧ (∀ c valid row fc m v,
       truthy (gene1_col c) && truthy (gene2_col c) = false →
       fusion_name_col c = Some fc → fc ≠ "" →
       row !! model_col c = Some (Some m) → row !! fc = Some (Some v) →
       (cut_name (PyStr.strip v) = None
        ∨ ∃ a b, cut_name (PyStr.strip v) = Some (a, b)
                 ∧ (PyStr.strip a = "" ∨ PyStr.strip b = "")) →
       extract c valid row = inr None)
  ∧ (∀ c valid row k1 k2 m v1 v2,
       gene1_col c = Some k1 → gene2_col c = Some k2 → k1 ≠ "" → k2 ≠ "" →
       row !! model_col c = Some (Some m) →
       row !! k1 = Some (Some v1) → row !! k2 = Some (Some v2) →
       PyStr.strip v1 = "" ∨ PyStr.strip v2 = "" →
       extract c valid row = inr None).
Proof.
  split; [|split; [|split; [|split]]].
  - intros inp h cols Hcols. split; [split|split].
    + intros Hexit. destruct (main_sys_exit _ _ Hexit) as [_ [Hargv | Hus]]; [by left|].
      destruct Hus as (h' & cols' & Hcols' & Hus). right. congruence.
    + destruct (decide (length (argv inp) < 2)) as [Hargv|Hargv].
      * intros _. by rewrite main_usage.
      * intros [?|Hus]; [done|].
        destruct (main_no_gene_source inp h cols) as (log & ->); [lia | done..].
    + apply main_usage.
    + intros Hargv Hus. by apply (main_no_gene_source inp h cols).
  - intros inp code Hexit. by destruct (main_sys_exit _ _ Hexit).
  - intros c valid row m. apply extract_unknown_cell_line.
  - intros c valid row fc m v Hmode Hfc Hne Hm Hv Hcut.
    destruct (decide (PyStr.strip m ∈ valid)) as [Hvalid|Hvalid];
      [|by apply (extract_unknown_cell_line c valid row m)].
    rewrite (extract_by_name c valid row fc m v) by done.
    destruct Hcut as [-> | (a & b & -> & Hempty)]; [done|]. simpl.
    by rewrite accept_empty.
  - intros c valid row k1 k2 m v1 v2 Hk1 Hk2 Hne1 Hne2 Hm Hv1 Hv2 Hempty.
    destruct (decide (PyStr.strip m ∈ valid)) as [Hvalid|Hvalid];
      [|by apply (extract_unknown_cell_line c valid row m)].
    rewrite (extract_by_columns c valid row k1 k2 m v1 v2) by done.
    rewrite accept_empty; [done|].
    destruct Hempty as [-> | ->]; [by left | by right].
Qed.

(** C9. A third way to end with status 1.  The file of
    [short_record_input] comes with its argument and a header that
    resolves both gene columns, so neither of the two fatal cases
    applies; its one record stops after the identifier, the gene field
    is [None], and line 87 raises AttributeError: the run prints its two
    opening lines, writes nothing and ends with status 1.  The rows the
    script means to skip (unknown cell line, name without hyphen, empty
    gene) it does skip; the missing field is the case it misses. *)
Theorem C9_short_record_ends_the_run :
  2 ≤ length (argv short_record_input)
  ∧ (detect_columns (DictReader.fieldnames (fusion_csv short_record_input))).2
    = inr gene_columns
  ∧ usable (detect_gene_cols ["ModelID"; "LeftGene"; "RightGene"]) = true
  ∧ main short_record_input
    = ([MsgLoaded 1; MsgColumns (Some ["ModelID"; "LeftGene"; "RightGene"])],
       inl (Uncaught AttributeError))
  ∧ exit_status (main short_record_input).2 = 1%Z.
Proof.
  split; [simpl; lia|]. split; [vm_compute; reflexivity|].
  split; [vm_compute; reflexivity|]. split; vm_compute; reflexivity.
Qed.

(** * Further properties of the script *)

(** A literal is not in a list of literals that differ from it. *)
Ltac not_among :=
  let H := fresh in
  intros H;
  repeat (apply elem_of_cons in H as [H | H]; [discriminate H|]);
  apply elem_of_nil in H; destruct H.

(** ** What the records of the output hold *)

Section Records.
Implicit Types (inp : input) (out : output) (r : gene_record)
  (cell_data : gmap string (gset string)).

(** Within one index entry, membership in a partner set is
    [partner_of]. *)
Lemma partner_of_lookup (gp : partner_index) g c p cell_data partner_set :
  gp !! g = Some cell_data → cell_data !! c = Some partner_set →
  partner_of gp g c p ↔ p ∈ partner_set.
Proof.
  intros Hcd Hps. split.
  - intros (cd & ps & Hcd' & Hps' & Hp). by simplify_eq.
  - intros Hp. by exists cell_data, partner_set.
Qed.

Lemma length_sorted (l : list string) : length (sorted l) = length l.
Proof. unfold sorted. by rewrite merge_sort_Permutation. Qed.

(** The exact content of the histogram of lines 147-152. *)
Lemma histogram_exact cell_data :
  let counts :=
    map_fold (λ (_ : string) (partner_set : gset string) counts,
                incr counts (pretty (size partner_set `min` 2)))
             (∅ : gmap string Z) cell_data in
  get counts "1" = Z.of_nat (size (filter (λ kv, size kv.2 = 1) cell_data))
  ∧ get counts "2" = Z.of_nat (size (filter (λ kv, 2 ≤ size kv.2) cell_data)).
Proof.
  simpl. apply (map_fold_weak_ind (λ counts cell_data,
    get counts "1" = Z.of_nat (size (filter (λ kv, size kv.2 = 1) cell_data))
    ∧ get counts "2" = Z.of_nat (size (filter (λ kv, 2 ≤ size kv.2) cell_data)))).
  - unfold get. by rewrite !lookup_empty, !map_filter_empty, map_size_empty.
  - intros c ps m counts Hc [H1 H2]. rewrite !get_incr.
    assert (∀ P `{!∀ x, Decision (P x)},
              filter P m !! c = None) as Hnone.
    { intros P ?. apply map_lookup_filter_None. by left. }
    destruct (bucket_cases (size ps)) as [[Hn ->] | [[Hn ->] | [Hn ->]]];
      repeat case_decide; try done.
    + rewrite !map_filter_insert_False, !delete_id by (simpl; done || lia). lia.
    + rewrite map_filter_insert_True by done.
      rewrite map_filter_insert_False, delete_id by (simpl; done || lia).
      rewrite map_size_insert_None by apply Hnone. lia.
    + rewrite map_filter_insert_False, delete_id by (simpl; done || lia).
      rewrite map_filter_insert_True by done.
      rewrite map_size_insert_None by apply Hnone. lia.
Qed.

Lemma registers_iff (f : fusion) g c p :
  registers f g c p ↔ f = (c, g, p) ∨ f = (c, p, g).
Proof.
  destruct f as [[m a] b]. unfold registers; simpl. split.
  - intros [<- [[<- <-] | [<- <-]]]; auto.
  - intros [[= -> -> ->] | [= -> -> ->]]; auto.
Qed.

(** The partner sets of an index entry, read as events. *)
Lemma index_entry_spec fusions gene cell_data :
  index_fusions fusions !! gene = Some cell_data →
  (∀ C ps p, cell_data !! C = Some ps →
     p ∈ ps ↔ (C, gene, p) ∈ fusions ∨ (C, p, gene) ∈ fusions)
  ∧ (∀ C, is_Some (cell_data !! C)
          ↔ ∃ p, (C, gene, p) ∈ fusions ∨ (C, p, gene) ∈ fusions).
Proof.
  intros Hcd.
  assert (∀ C p, partner_of (index_fusions fusions) gene C p
                 ↔ (C, gene, p) ∈ fusions ∨ (C, p, gene) ∈ fusions) as Hspec.
  { intros C p. rewrite index_fusions_spec. setoid_rewrite registers_iff.
    split.
    - intros (f & Hf & [-> | ->]); auto.
    - intros [H | H]; eexists; (split; [exact H|]); auto. }
  split.
  - intros C ps p Hps. rewrite <- Hspec. symmetry.
    by apply (partner_of_lookup _ gene C p cell_data ps).
  - intros C. split.
    + intros [ps Hps].
      destruct (set_choose_L ps) as [p Hp].
      { by apply (index_fusions_inhabited fusions gene cell_data C). }
      exists p. apply Hspec. by exists cell_data, ps.
    + intros [p (cd & ps & Hcd' & Hps & _)%Hspec]. by simplify_eq.
Qed.

End Records.

(** X1. In a record of the output, the partner list of a cell line is
    sorted, has no repeats, and lists exactly the genes that some
    accepted event pairs with the record's gene in that cell line, in
    either orientation; nothing else is ever listed. *)
Theorem X1_partners_exact inp out :
  (main inp).2 = inr out →
  ∃ fusions,
    (load inp).2 = inr fusions
    ∧ ∀ gene r C l,
        geneData out !! gene = Some r → partners r !! C = Some l →
        StronglySorted String.le l ∧ NoDup l
        ∧ ∀ p, p ∈ l ↔ (C, gene, p) ∈ fusions ∨ (C, p, gene) ∈ fusions.
Proof.
  intros Hmain. pose proof Hmain as (fusions & Hload & _)%run_inr.
  exists fusions. split; [done|]. intros gene r C l Hr Hl.
  destruct (geneData_lookup _ _ _ _ _ Hmain Hr)
    as (fusions' & cell_data & Hload' & Hcd & _ & ->).
  assert (fusions' = fusions) as -> by congruence.
  simpl in Hl. rewrite lookup_fmap in Hl.
  destruct (cell_data !! C) as [ps|] eqn:Hps; [|done]. injection Hl as <-.
  split; [apply sorted_Sorted|]. split; [apply sorted_NoDup, NoDup_elements|].
  intros p. simpl. rewrite sorted_elem_of, elem_of_elements.
  by apply (index_entry_spec fusions gene cell_data).
Qed.

Lemma X1_partners_exact_witness :
  ∃ out,
    (main example_input).2 = inr out
    ∧ ∃ fusions,
        (load example_input).2 = inr fusions
        ∧ ∀ gene r C l,
            geneData out !! gene = Some r → partners r !! C = Some l →
            StronglySorted String.le l ∧ NoDup l
            ∧ ∀ p, p ∈ l ↔ (C, gene, p) ∈ fusions ∨ (C, p, gene) ∈ fusions.
Proof.
  eexists. split; [vm_compute; reflexivity|].
  apply (X1_partners_exact example_input). vm_compute. reflexivity.
Defined.

(** X2. In a record of the output, [translocations] has the keys of
    [partners]; the number stored for a cell line is the length of its
    partner list and is at least 1, and the cell line is a valid one. *)
Theorem X2_translocations_count_partners inp out gene r :
  (main inp).2 = inr out →
  geneData out !! gene = Some r →
  (∀ C, translocations r !! C = length <$> partners r !! C)
  ∧ (∀ C n, translocations r !! C = Some n →
            1 ≤ n ∧ C ∈ valid_cell_lines inp).
Proof.
  intros Hmain Hr.
  destruct (geneData_lookup _ _ _ _ _ Hmain Hr)
    as (fusions & cell_data & Hload & Hcd & _ & ->).
  simpl. split.
  - intros C. rewrite !lookup_fmap. destruct (cell_data !! C) as [ps|]; [|done].
    simpl. by rewrite length_sorted.
  - intros C n. rewrite lookup_fmap.
    destruct (cell_data !! C) as [ps|] eqn:Hps; [|done]. intros [= <-]. split.
    + assert (size ps ≠ 0); [|lia]. intros Hz%size_empty_inv%leibniz_equiv.
      by apply (index_fusions_inhabited fusions gene cell_data C ps).
    + apply (index_dom_valid inp fusions gene cell_data Hload Hcd).
      apply elem_of_dom. by exists ps.
Qed.

Lemma X2_translocations_count_partners_witness :
  ∃ out r,
    (main example_input).2 = inr out
    ∧ geneData out !! "BCR" = Some r
    ∧ translocations r !! "ACH-3" = Some 2
    ∧ (∀ C, translocations r !! C = length <$> partners r !! C)
    ∧ (∀ C n, translocations r !! C = Some n →
              1 ≤ n ∧ C ∈ valid_cell_lines example_input).
Proof.
  eexists _, _. split; [vm_compute; reflexivity|]. split; [vm_compute; reflexivity|].
  split; [vm_compute; reflexivity|].
  eapply (X2_translocations_count_partners example_input _ "BCR"); vm_compute; reflexivity.
Defined.

(** X3. [geneCounts] repeats [total_translocated] of the gene's record,
    which is the number of keys of [translocations]: the distinct cell
    lines in which some accepted event involves the gene. *)
Theorem X3_gene_counts_distinct_cell_lines inp out :
  (main inp).2 = inr out →
  ∃ fusions,
    (load inp).2 = inr fusions
    ∧ ∀ gene,
        geneCounts out !! gene = total_translocated <$> geneData out !! gene
        ∧ ∀ r, geneData out !! gene = Some r →
            total_translocated r = size (translocations r)
            ∧ ∀ C, is_Some (translocations r !! C)
                   ↔ ∃ p, (C, gene, p) ∈ fusions ∨ (C, p, gene) ∈ fusions.
Proof.
  intros Hmain. pose proof Hmain as (fusions & Hload & Hout)%run_inr.
  simpl in Hout. exists fusions. split; [done|]. intros gene. split.
  - subst out; simpl. rewrite !lookup_fmap.
    by destruct (filter_genes _ _ !! gene).
  - intros r Hr.
    destruct (geneData_lookup _ _ _ _ _ Hmain Hr)
      as (fusions' & cell_data & Hload' & Hcd & _ & ->).
    assert (fusions' = fusions) as -> by congruence.
    simpl. split; [by rewrite map_size_fmap|].
    intros C. rewrite lookup_fmap, fmap_is_Some.
    by apply (index_entry_spec fusions gene cell_data).
Qed.

Lemma X3_gene_counts_distinct_cell_lines_witness :
  ∃ out,
    (main example_input).2 = inr out
    ∧ geneCounts out !! "BCR" = Some 3
    ∧ ∃ fusions,
        (load example_input).2 = inr fusions
        ∧ ∀ gene,
            geneCounts out !! gene = total_translocated <$> geneData out !! gene
            ∧ ∀ r, geneData out !! gene = Some r →
                total_translocated r = size (translocations r)
                ∧ ∀ C, is_Some (translocations r !! C)
                       ↔ ∃ p, (C, gene, p) ∈ fusions ∨ (C, p, gene) ∈ fusions.
Proof.
  eexists. split; [vm_compute; reflexivity|]. split; [vm_compute; reflexivity|].
  apply (X3_gene_counts_distinct_cell_lines example_input). vm_compute. reflexivity.
Defined.

(** X4. In a record of the output, bucket "1" is the number of cell
    lines with exactly one partner and bucket "2" the number of cell
    lines with two or more. *)
Theorem X4_buckets_count_cell_lines inp out gene r :
  (main inp).2 = inr out →
  geneData out !! gene = Some r →
  counts r !! "1"
  = Some (Z.of_nat (size (filter (λ kv, kv.2 = 1) (translocations r))))
  ∧ counts r !! "2"
    = Some (Z.of_nat (size (filter (λ kv, 2 ≤ kv.2) (translocations r)))).
Proof.
  intros Hmain Hr.
  destruct (geneData_lookup _ _ _ _ _ Hmain Hr)
    as (fusions & cell_data & Hload & Hcd & _ & ->).
  destruct (histogram_exact cell_data) as [H1 H2]. simpl in H1, H2.
  unfold summarize; simpl.
  rewrite !(map_filter_fmap _ size cell_data), !map_size_fmap.
  unfold get in H1, H2. split.
  - rewrite lookup_insert_ne, lookup_insert_eq by done.
    rewrite (lookup_insert_ne _ "0" "1") by done. by rewrite H1.
  - rewrite !lookup_insert_ne, lookup_singleton_eq by done. by rewrite H2.
Qed.

Lemma X4_buckets_count_cell_lines_witness :
  ∃ out r,
    (main example_input).2 = inr out
    ∧ geneData out !! "BCR" = Some r
    ∧ counts r !! "1" = Some 2%Z ∧ counts r !! "2" = Some 1%Z
    ∧ counts r !! "1"
      = Some (Z.of_nat (size (filter (λ kv, kv.2 = 1) (translocations r))))
    ∧ counts r !! "2"
      = Some (Z.of_nat (size (filter (λ kv, 2 ≤ kv.2) (translocations r)))).
Proof.
  eexists _, _. split; [vm_compute; reflexivity|]. split; [vm_compute; reflexivity|].
  split; [vm_compute; reflexivity|]. split; [vm_compute; reflexivity|].
  eapply (X4_buckets_count_cell_lines example_input _ "BCR"); vm_compute; reflexivity.
Defined.

(** X5. The wild-type count is never negative: in a record of the
    output every bucket is at least 0, and neither bucket "0" nor
    [total_translocated] exceeds the number of valid cell lines. *)
Theorem X5_counts_within_bounds inp out gene r :
  (main inp).2 = inr out →
  geneData out !! gene = Some r →
  ∃ c0 c1 c2,
    counts r = {[ "0" := c0; "1" := c1; "2" := c2 ]}
    ∧ (0 ≤ c0 ≤ Z.of_nat (size (valid_cell_lines inp)))%Z
    ∧ (0 ≤ c1)%Z ∧ (0 ≤ c2)%Z
    ∧ total_translocated r ≤ size (valid_cell_lines inp).
Proof.
  intros Hmain Hr.
  destruct (geneData_lookup _ _ _ _ _ Hmain Hr)
    as (fusions & cell_data & Hload & Hcd & _ & ->).
  destruct (summarize_counts (valid_cell_lines inp) cell_data)
    as (c1 & c2 & Hcounts & Hc1 & Hc2 & Hsum).
  { intros c ps. by apply (index_fusions_inhabited fusions gene). }
  pose proof (index_dom_valid _ _ _ _ Hload Hcd) as Hdom.
  apply subseteq_size in Hdom. rewrite size_dom in Hdom.
  eexists _, c1, c2. split; [exact Hcounts|]. simpl. lia.
Qed.

Lemma X5_counts_within_bounds_witness :
  ∃ out r,
    (main example_input).2 = inr out
    ∧ geneData out !! "BCR" = Some r
    ∧ ∃ c0 c1 c2,
        counts r = {[ "0" := c0; "1" := c1; "2" := c2 ]}
        ∧ (0 ≤ c0 ≤ Z.of_nat (size (valid_cell_lines example_input)))%Z
        ∧ (0 ≤ c1)%Z ∧ (0 ≤ c2)%Z
        ∧ total_translocated r ≤ size (valid_cell_lines example_input).
Proof.
  eexists _, _. split; [vm_compute; reflexivity|]. split; [vm_compute; reflexivity|].
  eapply (X5_counts_within_bounds example_input _ "BCR"); vm_compute; reflexivity.
Defined.

(** ** The index as a function of the set of events *)

Section IndexExt.
Implicit Types (gp : partner_index) (fusions : list fusion).

(** No gene of the index has an empty entry: entries only come into
    being together with a cell line. *)
Lemma add_partner_entries gp g c p :
  (∀ g' cd, gp !! g' = Some cd → cd ≠ ∅) →
  ∀ g' cd, add_partner gp g c p !! g' = Some cd → cd ≠ ∅.
Proof.
  intros Hgp g' cd. unfold add_partner.
  destruct (decide (g' = g)) as [->|Hne].
  - rewrite lookup_insert_eq. intros [= <-]. apply insert_non_empty.
  - rewrite lookup_insert_ne by done. apply Hgp.
Qed.

Lemma index_fusions_entries fusions g cd :
  index_fusions fusions !! g = Some cd → cd ≠ ∅.
Proof.
  unfold index_fusions.
  assert (∀ gp, (∀ g' cd, gp !! g' = Some cd → cd ≠ ∅) →
                ∀ g' cd, foldl add_fusion gp fusions !! g' = Some cd → cd ≠ ∅)
    as Hfold.
  { induction fusions as [|[[m g1] g2] fusions IH]; intros gp Hgp; [done|].
    simpl. by apply IH, add_partner_entries, add_partner_entries. }
  apply Hfold. intros g' cd'. by rewrite lookup_empty.
Qed.

(** An index entry determines and is determined by [partner_of]. *)
Lemma index_fusions_lookup_le fusions fusions' g cd :
  (∀ g c p, partner_of (index_fusions fusions) g c p
            ↔ partner_of (index_fusions fusions') g c p) →
  index_fusions fusions !! g = Some cd →
  index_fusions fusions' !! g = Some cd.
Proof.
  intros Hiff Hcd.
  destruct (map_choose cd) as (c0 & ps0 & Hps0).
  { by apply (index_fusions_entries fusions g). }
  destruct (set_choose_L ps0) as [p0 Hp0].
  { by apply (index_fusions_inhabited fusions g cd c0). }
  destruct (proj1 (Hiff g c0 p0)) as (cd' & ps0' & Hcd' & _).
  { by exists cd, ps0. }
  rewrite Hcd'. f_equal. apply map_eq. intros c.
  destruct (cd !! c) as [ps|] eqn:Hps.
  - destruct (set_choose_L ps) as [p Hp].
    { by apply (index_fusions_inhabited fusions g cd c). }
    destruct (proj1 (Hiff g c p)) as (cd'' & ps' & Hcd'' & Hps' & _).
    { by exists cd, ps. }
    assert (cd'' = cd') as -> by congruence.
    rewrite Hps'. f_equal. apply set_eq. intros q.
    rewrite <- (partner_of_lookup _ g c q cd' ps' Hcd' Hps').
    rewrite <- (partner_of_lookup _ g c q cd ps Hcd Hps).
    symmetry. apply Hiff.
  - destruct (cd' !! c) as [ps'|] eqn:Hps'; [|done].
    destruct (set_choose_L ps') as [p Hp].
    { by apply (index_fusions_inhabited fusions' g cd' c). }
    destruct (proj2 (Hiff g c p)) as (cd'' & ps & Hcd'' & Hps'' & _).
    { by exists cd', ps'. }
    congruence.
Qed.

(** Two lists of events that register the same partners build the same
    index. *)
Lemma index_fusions_ext fusions fusions' :
  (∀ g c p, (∃ f, f ∈ fusions ∧ registers f g c p)
            ↔ (∃ f, f ∈ fusions' ∧ registers f g c p)) →
  index_fusions fusions = index_fusions fusions'.
Proof.
  intros Hiff.
  assert (∀ g c p, partner_of (index_fusions fusions) g c p
                   ↔ partner_of (index_fusions fusions') g c p) as Hpart.
  { intros g c p. by rewrite !index_fusions_spec. }
  apply map_eq. intros g.
  destruct (index_fusions fusions !! g) as [cd|] eqn:Hcd.
  - symmetry. by apply (index_fusions_lookup_le fusions fusions').
  - destruct (index_fusions fusions' !! g) as [cd'|] eqn:Hcd'; [|done].
    apply (index_fusions_lookup_le fusions' fusions) in Hcd'; [congruence|].
    intros g' c p. symmetry. apply Hpart.
Qed.

Lemma index_fusions_same_elements fusions fusions' :
  (∀ f, f ∈ fusions ↔ f ∈ fusions') →
  index_fusions fusions = index_fusions fusions'.
Proof.
  intros Hsame. apply index_fusions_ext. intros g c p.
  split; intros (f & Hf & Hreg); exists f; (split; [by apply Hsame | done]).
Qed.

End IndexExt.

(** X6. The partner index depends only on the set of unordered events:
    two lists of events that agree up to order, repetition and the
    orientation of each gene pair build the same index. *)
Theorem X6_index_ignores_order_and_orientation (fusions fusions' : list fusion) :
  (∀ c a b, ((c, a, b) ∈ fusions ∨ (c, b, a) ∈ fusions)
            ↔ ((c, a, b) ∈ fusions' ∨ (c, b, a) ∈ fusions')) →
  index_fusions fusions = index_fusions fusions'.
Proof.
  intros Hsame. apply index_fusions_ext. intros g c p.
  setoid_rewrite registers_iff.
  assert (∀ fs : list fusion,
            (∃ f, f ∈ fs ∧ (f = (c, g, p) ∨ f = (c, p, g)))
            ↔ (c, g, p) ∈ fs ∨ (c, p, g) ∈ fs) as Hex.
  { intros fs. split.
    - intros (f & Hf & [-> | ->]); auto.
    - intros [H | H]; eexists; (split; [exact H|]); auto. }
  rewrite !Hex. apply Hsame.
Qed.

Lemma X6_index_ignores_order_and_orientation_witness :
  index_fusions [("ACH-1", "BCR", "ABL1"); ("ACH-1", "BCR", "ABL1");
                 ("ACH-2", "JAK2", "BCR")]
  = index_fusions [("ACH-2", "BCR", "JAK2"); ("ACH-1", "ABL1", "BCR")].
Proof.
  apply X6_index_ignores_order_and_orientation. intros c a b.
  rewrite !elem_of_cons, !elem_of_nil. split; intros H;
    repeat (destruct H as [H | H]); try done; simplify_eq; tauto.
Defined.

(** ** The order of the data rows and the threshold *)

Section RowOrder.
Implicit Types (c : columns) (valid : gset string) (rows : list DictReader.row)
  (inp : input).

(** A successful pass over the rows means no row raised. *)
Lemma read_rows_inr_each c valid rows fusions fusions' :
  read_rows c valid rows fusions = inr fusions' →
  ∀ row, row ∈ rows → ∃ r, extract c valid row = inr r.
Proof.
  revert fusions. induction rows as [|row rows IH]; intros fusions; simpl.
  - intros _ row Hrow. by apply elem_of_nil in Hrow.
  - intros (ev & Hev & H)%E_bind_inr row' [-> | Hrow']%elem_of_cons.
    + by exists ev.
    + by apply (IH _ H).
Qed.

(** The events of a successful pass, as a set. *)
Lemma read_rows_elem_of c valid rows fusions' f :
  read_rows c valid rows [] = inr fusions' →
  f ∈ fusions' ↔ ∃ row, row ∈ rows ∧ extract c valid row = inr (Some f).
Proof.
  intros Hrows. split.
  - intros Hf. destruct (read_rows_inr _ _ _ _ _ Hrows f Hf) as [Hnil | H]; [|done].
    by apply elem_of_nil in Hnil.
  - intros H. apply (read_rows_keeps _ _ _ _ _ Hrows). by right.
Qed.

Lemma rows_elem_of (names : list string) (records : list (list string)) row :
  row ∈ DictReader.rows (names :: records)
  ↔ ∃ record, record ∈ records ∧ record ≠ [] ∧ row = DictReader.make_row names record.
Proof.
  simpl. rewrite list_elem_of_fmap. setoid_rewrite list_elem_of_filter. split.
  - intros (record & -> & Hne & Hin). by exists record.
  - intros (record & Hin & Hne & ->). by exists record.
Qed.

(** Same header, same valid cell lines, same set of records: same
    events as a set. *)
Lemma load_same_records inp inp' names records records' fusions :
  2 ≤ length (argv inp') →
  valid_cell_lines inp' = valid_cell_lines inp →
  fusion_csv inp = names :: records →
  fusion_csv inp' = names :: records' →
  (∀ record, record ∈ records ↔ record ∈ records') →
  (load inp).2 = inr fusions →
  ∃ fusions', (load inp').2 = inr fusions' ∧ ∀ f, f ∈ fusions ↔ f ∈ fusions'.
Proof.
  intros Hargv Hvalid Hcsv Hcsv' Hsame (_ & c & Hc & Hrows)%load_inr.
  rewrite Hcsv in Hc, Hrows.
  assert (∀ row, row ∈ DictReader.rows (names :: records')
                 ↔ row ∈ DictReader.rows (names :: records)) as Hrowsame.
  { intros row. rewrite !rows_elem_of. by setoid_rewrite Hsame. }
  destruct (read_rows_present c (valid_cell_lines inp)
              (DictReader.rows (names :: records')) []) as [fusions' Hrows'].
  { intros row Hrow%Hrowsame. by apply (read_rows_inr_each _ _ _ _ _ Hrows). }
  exists fusions'. split.
  - apply load_inr. split; [done|]. exists c. rewrite Hcsv', Hvalid. by split.
  - intros f. rewrite (read_rows_elem_of _ _ _ _ f Hrows).
    rewrite (read_rows_elem_of _ _ _ _ f Hrows').
    by setoid_rewrite Hrowsame.
Qed.

End RowOrder.

(** X7. What the output holds does not depend on the order of the data
    rows: when a run succeeds, a run on a file with the same header and
    the same records in any order (or repeated), and with the same set
    of valid cell lines, succeeds with the same [genes] array, the same
    gene counts and, gene by gene, the same record up to the order of
    the cell-line keys inside [translocations] and [partners]. *)
Theorem X7_output_ignores_row_order min_cell_lines inp inp' names records records' out :
  2 ≤ length (argv inp') →
  valid_cell_lines inp' = valid_cell_lines inp →
  fusion_csv inp = names :: records →
  fusion_csv inp' = names :: records' →
  (∀ record, record ∈ records ↔ record ∈ records') →
  (run min_cell_lines inp).2 = inr out →
  ∃ out',
    (run min_cell_lines inp').2 = inr out'
    ∧ genes out' = genes out
    ∧ (∀ g, geneCounts out' !! g = geneCounts out !! g)
    ∧ (∀ g, option_Forall2 same_record (geneData out !! g) (geneData out' !! g)).
Proof.
  intros Hargv Hvalid Hcsv Hcsv' Hsame (fusions & Hload & Hout)%run_inr.
  destruct (load_same_records inp inp' names records records' fusions)
    as (fusions' & Hload' & Hf); [done..|].
  exists out. split; [|split; [done|split; [done|]]].
  - apply run_inr. exists fusions'. split; [done|]. simpl in *.
    by rewrite Hvalid, <- (index_fusions_same_elements fusions fusions').
  - intros g. destruct (geneData out !! g) as [r|]; constructor.
    by repeat split.
Qed.

Lemma X7_output_ignores_row_order_witness :
  ∃ out',
    (main shuffled_input).2 = inr out'
    ∧ genes out' = ["ABL1"; "BCR"]
    ∧ ∃ out,
        (main example_input).2 = inr out
        ∧ genes out' = genes out
        ∧ (∀ g, geneCounts out' !! g = geneCounts out !! g)
        ∧ (∀ g, option_Forall2 same_record (geneData out !! g) (geneData out' !! g)).
Proof.
  destruct (X7_output_ignores_row_order MIN_CELL_LINES example_input shuffled_input
              ["ModelID"; "LeftGene"; "RightGene"]
              (tail (fusion_csv example_input)) (tail (fusion_csv shuffled_input))
              (match (main example_input).2 with
               | inr out => out
               | inl _ => {| genes := []; geneCounts := ∅; geneData := ∅ |}
               end))
    as (out' & Hrun' & Hgenes & Hrest).
  - simpl. lia.
  - vm_compute. reflexivity.
  - reflexivity.
  - reflexivity.
  - intros record. simpl. rewrite !elem_of_cons, !elem_of_nil. tauto.
  - vm_compute. reflexivity.
  - exists out'. split; [exact Hrun'|]. split.
    + rewrite Hgenes. vm_compute. reflexivity.
    + eexists. split; [vm_compute; reflexivity|]. split; [exact Hgenes | exact Hrest].
Defined.

(** X8. The threshold only selects genes.  Raising it cannot make a run
    fail, drops genes without adding any, and leaves the record and the
    count of every gene that stays as they were; a gene stays exactly
    when its [total_translocated] meets the higher threshold. *)
Theorem X8_threshold_only_selects k k' inp out :
  k ≤ k' →
  (run k inp).2 = inr out →
  ∃ out',
    (run k' inp).2 = inr out'
    ∧ (∀ g, g ∈ genes out' → g ∈ genes out)
    ∧ (∀ g r, geneData out' !! g = Some r
              ↔ geneData out !! g = Some r ∧ k' ≤ total_translocated r)
    ∧ (∀ g n, geneCounts out' !! g = Some n
              ↔ geneCounts out !! g = Some n ∧ k' ≤ n).
Proof.
  intros Hk (fusions & Hload & Hout)%run_inr. simpl in Hout. subst out.
  eexists. split; [apply run_inr; exists fusions; split; [done | reflexivity]|].
  simpl. set (gp := index_fusions fusions).
  assert (∀ g cd, filter_genes k' gp !! g = Some cd
                  ↔ filter_genes k gp !! g = Some cd ∧ k' ≤ size cd) as Hfilter.
  { intros g cd. unfold filter_genes. rewrite !map_lookup_filter_Some. simpl.
    split; [intros [? ?]; repeat split; done || lia | by intros [[? ?] ?]]. }
  split; [|split].
  - intros g. rewrite !sorted_elem_of, !elem_of_keys.
    intros [cd Hcd]. exists cd. by apply Hfilter.
  - intros g r. rewrite !lookup_fmap, !fmap_Some. split.
    + intros (cd & Hcd%Hfilter & ->). split; [|by destruct Hcd].
      exists cd. by destruct Hcd.
    + intros [(cd & Hcd & ->) Hsize]. exists cd. split; [|done].
      by apply Hfilter.
  - intros g n. rewrite !lookup_fmap, !fmap_Some. split.
    + intros (cd & Hcd%Hfilter & ->). split; [|by destruct Hcd].
      exists cd. by destruct Hcd.
    + intros [(cd & Hcd & ->) Hsize]. exists cd. split; [|done].
      by apply Hfilter.
Qed.

Lemma X8_threshold_only_selects_witness :
  ∃ out,
    (run 1 example_input).2 = inr out
    ∧ genes out = ["ABL1"; "BCR"; "JAK2"]
    ∧ ∃ out',
        (run 3 example_input).2 = inr out'
        ∧ (∀ g, g ∈ genes out' → g ∈ genes out)
        ∧ (∀ g r, geneData out' !! g = Some r
                  ↔ geneData out !! g = Some r ∧ 3 ≤ total_translocated r)
        ∧ (∀ g n, geneCounts out' !! g = Some n
                  ↔ geneCounts out !! g = Some n ∧ 3 ≤ n).
Proof.
  eexists. split; [vm_compute; reflexivity|]. split; [vm_compute; reflexivity|].
  apply (X8_threshold_only_selects 1 3 example_input); [lia|].
  vm_compute. reflexivity.
Defined.

(** ** Annotations and gene columns *)

Section Annotations.
Implicit Types (c : columns) (valid : gset string) (row : DictReader.row).

(** A gene name without white space, alone or followed by an annotation
    in parentheses, is read as that gene name. *)
Lemma unannotated_annotation g v :
  no_space g = true →
  v = g ∨ (∃ a, v = g +:+ " (" +:+ a) →
  unannotated v = g.
Proof.
  intros Hg [-> | [a ->]]; unfold unannotated.
  - by rewrite partition_no_char by by apply no_space_no_char.
  - rewrite partition_app by by apply no_space_no_char.
    by apply strip_no_space.
Qed.

End Annotations.

(** X9. With explicit gene columns, an annotation in parentheses is
    dropped: a field that, once trimmed, reads [g] or [g (anything] for
    a gene name [g] without white space is taken as the gene [g], so an
    annotated and a plain row yield the same event. *)
Theorem X9_annotation_dropped c valid row k1 k2 m v1 v2 g1 g2 :
  gene1_col c = Some k1 → gene2_col c = Some k2 → k1 ≠ "" → k2 ≠ "" →
  row !! model_col c = Some (Some m) → PyStr.strip m ∈ valid →
  row !! k1 = Some (Some v1) → row !! k2 = Some (Some v2) →
  no_space g1 = true → no_space g2 = true →
  PyStr.strip v1 = g1 ∨ (∃ a, PyStr.strip v1 = g1 +:+ " (" +:+ a) →
  PyStr.strip v2 = g2 ∨ (∃ a, PyStr.strip v2 = g2 +:+ " (" +:+ a) →
  extract c valid row
  = inr (if bool_decide (g1 ≠ "" ∧ g2 ≠ "")
         then Some (PyStr.strip m, g1, g2) else None).
Proof.
  intros Hk1 Hk2 Hne1 Hne2 Hm Hvalid Hv1 Hv2 Hg1 Hg2 Ha1 Ha2.
  rewrite (extract_by_columns c valid row k1 k2 m v1 v2) by done.
  rewrite (unannotated_annotation g1 _ Hg1 Ha1).
  rewrite (unannotated_annotation g2 _ Hg2 Ha2).
  unfold accept; simpl. f_equal.
  destruct (PyStr.truthy g1) eqn:H1, (PyStr.truthy g2) eqn:H2; simpl.
  - apply truthy_true in H1, H2. by rewrite bool_decide_true.
  - rewrite bool_decide_false; [done|]. intros [_ H%truthy_true]. congruence.
  - rewrite bool_decide_false; [done|]. intros [H%truthy_true _]. congruence.
  - rewrite bool_decide_false; [done|]. intros [H%truthy_true _]. congruence.
Qed.

Lemma X9_annotation_dropped_witness :
  extract gene_columns {["ACH-1"]}
    (DictReader.make_row ["ModelID"; "LeftGene"; "RightGene"]
       [" ACH-1"; "BCR (ENSG00000186716.20) "; "ABL1"])
  = inr (Some ("ACH-1", "BCR", "ABL1")).
Proof.
  apply (X9_annotation_dropped gene_columns {["ACH-1"]} _ "LeftGene" "RightGene"
           " ACH-1" "BCR (ENSG00000186716.20) " "ABL1" "BCR" "ABL1").
  - reflexivity.
  - reflexivity.
  - discriminate.
  - discriminate.
  - vm_compute. reflexivity.
  - vm_compute. reflexivity.
  - vm_compute. reflexivity.
  - vm_compute. reflexivity.
  - reflexivity.
  - reflexivity.
  - right. exists "ENSG00000186716.20)". vm_compute. reflexivity.
  - left. vm_compute. reflexivity.
Defined.

Section GeneColumns.

(** The three projections of the loop body of line 64: each column
    variable is overwritten when the normalized header is one of its
    names, and kept otherwise. *)
Lemma classify_gene1 found h :
  (classify found h).1.1
  = if bool_decide (normalize h ∈ ["leftgene"; "gene1"; "genea"; "leftgenename"])
    then Some h else found.1.1.
Proof. destruct found as [[g1 g2] fn]. simpl. by repeat case_bool_decide. Qed.

Lemma names_disjoint (cl : string) :
  (cl ∈ ["leftgene"; "gene1"; "genea"; "leftgenename"] →
   (cl ∉ ["rightgene"; "gene2"; "geneb"; "rightgenename"])
   ∧ (cl ∉ ["fusionname"; "fusion"; "name"]))
  ∧ (cl ∈ ["rightgene"; "gene2"; "geneb"; "rightgenename"] →
     cl ∉ ["fusionname"; "fusion"; "name"]).
Proof.
  split; intros Hin;
    repeat (apply elem_of_cons in Hin as [-> | Hin];
            [try (split); not_among|]);
    by apply elem_of_nil in Hin.
Qed.

Lemma classify_gene2 found h :
  (classify found h).1.2
  = if bool_decide (normalize h ∈ ["rightgene"; "gene2"; "geneb"; "rightgenename"])
    then Some h else found.1.2.
Proof.
  destruct found as [[g1 g2] fn]. simpl.
  destruct (names_disjoint (normalize h)) as [H1 _].
  repeat case_bool_decide; try done. by destruct H1.
Qed.

Lemma classify_name found h :
  (classify found h).2
  = if bool_decide (normalize h ∈ ["fusionname"; "fusion"; "name"])
    then Some h else found.2.
Proof.
  destruct found as [[g1 g2] fn]. simpl.
  destruct (names_disjoint (normalize h)) as [H1 H2].
  repeat case_bool_decide; try done.
  - by destruct H1 as [_ []].
  - by destruct H2.
Qed.

(** A loop that overwrites a variable at every match ends with the last
    match. *)
Lemma foldl_last_match {A} (step : A → string → A) (π : A → option string)
    (P : string → Prop) `{!∀ h, Decision (P h)} :
  (∀ acc h, π (step acc h) = if bool_decide (P h) then Some h else π acc) →
  (∀ acc cols, (∀ h, h ∈ cols → ¬ P h) → π (foldl step acc cols) = π acc)
  ∧ (∀ acc pre k post, P k → (∀ h, h ∈ post → ¬ P h) →
       π (foldl step acc (pre ++ k :: post)) = Some k).
Proof.
  intros Hstep.
  assert (∀ acc cols, (∀ h, h ∈ cols → ¬ P h) → π (foldl step acc cols) = π acc)
    as Hnone.
  { intros acc cols. revert acc. induction cols as [|h cols IH]; intros acc Hcols; [done|].
    simpl. rewrite IH by (intros x Hx; apply Hcols; by right).
    rewrite Hstep, bool_decide_false; [done|]. apply Hcols. left. }
  split; [done|]. intros acc pre k post Hk Hpost.
  rewrite foldl_app. simpl. rewrite Hnone by done.
  by rewrite Hstep, bool_decide_true.
Qed.

End GeneColumns.

(** X10. For the gene and fusion-name columns the last matching header
    wins, and a header matches through its normalized form (lower case,
    underscores and spaces removed): each of the three column variables
    is the last header whose normalized form is one of its names, and
    stays unset when there is none. *)
Theorem X10_last_matching_header_wins :
  let left := ["leftgene"; "gene1"; "genea"; "leftgenename"] in
  let right := ["rightgene"; "gene2"; "geneb"; "rightgenename"] in
  let name := ["fusionname"; "fusion"; "name"] in
  (∀ pre k post,
     (normalize k ∈ left → (∀ h, h ∈ post → normalize h ∉ left) →
      (detect_gene_cols (pre ++ k :: post)).1.1 = Some k)
     ∧ (normalize k ∈ right → (∀ h, h ∈ post → normalize h ∉ right) →
        (detect_gene_cols (pre ++ k :: post)).1.2 = Some k)
     ∧ (normalize k ∈ name → (∀ h, h ∈ post → normalize h ∉ name) →
        (detect_gene_cols (pre ++ k :: post)).2 = Some k))
  ∧ (∀ cols,
       ((∀ h, h ∈ cols → normalize h ∉ left) → (detect_gene_cols cols).1.1 = None)
       ∧ ((∀ h, h ∈ cols → normalize h ∉ right) → (detect_gene_cols cols).1.2 = None)
       ∧ ((∀ h, h ∈ cols → normalize h ∉ name) → (detect_gene_cols cols).2 = None)).
Proof.
  intros left right name. unfold detect_gene_cols.
  destruct (foldl_last_match classify (λ found, found.1.1)
              (λ h, normalize h ∈ left) classify_gene1) as [Hn1 Hl1].
  destruct (foldl_last_match classify (λ found, found.1.2)
              (λ h, normalize h ∈ right) classify_gene2) as [Hn2 Hl2].
  destruct (foldl_last_match classify (λ found, found.2)
              (λ h, normalize h ∈ name) classify_name) as [Hn3 Hl3].
  split.
  - intros pre k post. split; [|split]; intros Hk Hpost.
    + by apply (Hl1 (None, None, None)).
    + by apply (Hl2 (None, None, None)).
    + by apply (Hl3 (None, None, None)).
  - intros cols. split; [|split]; intros Hcols.
    + by apply (Hn1 (None, None, None)).
    + by apply (Hn2 (None, None, None)).
    + by apply (Hn3 (None, None, None)).
Qed.

Lemma X10_last_matching_header_wins_witness :
  let cols := ["ModelID"; "Gene_1"; "RIGHT gene"; "left_gene"; "Score"] in
  (detect_gene_cols cols).1.1 = Some "left_gene"
  ∧ (detect_gene_cols cols).1.2 = Some "RIGHT gene"
  ∧ (detect_gene_cols cols).2 = None.
Proof.
  destruct X10_last_matching_header_wins as [Hlast Hnone].
  destruct (Hlast ["ModelID"; "Gene_1"; "RIGHT gene"] "left_gene" ["Score"])
    as (H1 & _ & _).
  destruct (Hlast ["ModelID"; "Gene_1"] "RIGHT gene" ["left_gene"; "Score"])
    as (_ & H2 & _).
  destruct (Hnone ["ModelID"; "Gene_1"; "RIGHT gene"; "left_gene"; "Score"])
    as (_ & _ & H3).
  split; [|split].
  - apply H1.
    + apply (bool_decide_unpack _). vm_compute. exact I.
    + intros h Hh.
      repeat (apply elem_of_cons in Hh as [-> | Hh];
              [apply (bool_decide_unpack _); vm_compute; exact I|]).
      by apply elem_of_nil in Hh.
  - apply H2.
    + apply (bool_decide_unpack _). vm_compute. exact I.
    + intros h Hh.
      repeat (apply elem_of_cons in Hh as [-> | Hh];
              [apply (bool_decide_unpack _); vm_compute; exact I|]).
      by apply elem_of_nil in Hh.
  - apply H3. intros h Hh.
    repeat (apply elem_of_cons in Hh as [-> | Hh];
            [apply (bool_decide_unpack _); vm_compute; exact I|]).
    by apply elem_of_nil in Hh.
Defined.

(** ** Runs without events, and what events look like *)

Section NoEvents.
Implicit Types (inp : input).

Lemma filter_blank_records (records : list (list string)) :
  (∀ record, record ∈ records → record = []) →
  filter (λ r, r ≠ []) records = [].
Proof.
  induction records as [|record records IH]; intros Hblank; [done|].
  rewrite filter_cons_False.
  - apply IH. intros r Hr. apply Hblank. by right.
  - intros Hne. apply Hne, Hblank. left.
Qed.

Lemma run_no_events min_cell_lines inp :
  (load inp).2 = inr [] →
  (run min_cell_lines inp).2
  = inr {| genes := []; geneCounts := ∅; geneData := ∅ |}.
Proof.
  intros Hload. apply run_inr. exists []. split; [done|]. simpl.
  unfold filter_genes, index_fusions. simpl.
  by rewrite map_filter_empty, map_to_list_empty, !fmap_empty.
Qed.

Lemma load_blank_records inp h cols records :
  2 ≤ length (argv inp) →
  fusion_csv inp = (h :: cols) :: records →
  usable (detect_gene_cols (h :: cols)) = true →
  (∀ record, record ∈ records → record = []) →
  (load inp).2 = inr [].
Proof.
  intros Hargv Hcsv Hus Hblank.
  destruct (detect_columns_usable h cols Hus) as (log & c & Hdet).
  apply load_inr. split; [done|]. exists c. rewrite Hcsv. split.
  - change (DictReader.fieldnames ((h :: cols) :: records)) with (Some (h :: cols)).
    by rewrite Hdet.
  - unfold DictReader.rows. by rewrite filter_blank_records.
Qed.

End NoEvents.

(** X11. A run that accepts no event still succeeds and writes the
    empty structure: no genes, no counts, no records.  This is what a
    file with a usable header and nothing but blank lines below it
    gives. *)
Theorem X11_no_events_empty_output min_cell_lines inp :
  ((load inp).2 = inr [] →
   (run min_cell_lines inp).2
   = inr {| genes := []; geneCounts := ∅; geneData := ∅ |})
  ∧ (∀ h cols records,
       2 ≤ length (argv inp) →
       fusion_csv inp = (h :: cols) :: records →
       usable (detect_gene_cols (h :: cols)) = true →
       (∀ record, record ∈ records → record = []) →
       (run min_cell_lines inp).2
       = inr {| genes := []; geneCounts := ∅; geneData := ∅ |}).
Proof.
  split; [apply run_no_events|].
  intros h cols records Hargv Hcsv Hus Hblank.
  by apply run_no_events, (load_blank_records inp h cols records).
Qed.

Lemma X11_no_events_empty_output_witness :
  (main header_only_input).2
  = inr {| genes := []; geneCounts := ∅; geneData := ∅ |}
  ∧ (main unknown_cell_lines_input).2
    = inr {| genes := []; geneCounts := ∅; geneData := ∅ |}.
Proof.
  split.
  - apply (proj2 (X11_no_events_empty_output MIN_CELL_LINES header_only_input)
             "ModelID" ["FusionName"] [[]; []]).
    + simpl. lia.
    + reflexivity.
    + vm_compute. reflexivity.
    + intros record Hin.
      repeat (apply elem_of_cons in Hin as [-> | Hin]; [reflexivity|]).
      by apply elem_of_nil in Hin.
  - apply (proj1 (X11_no_events_empty_output MIN_CELL_LINES unknown_cell_lines_input)).
    vm_compute. reflexivity.
Defined.

(** X12. Every accepted event names a valid cell line and two non-empty
    genes; so the empty string is never a gene or a partner in the
    output, and every cell line the output mentions is a valid one. *)
Theorem X12_only_valid_cell_lines_and_named_genes inp out :
  (main inp).2 = inr out →
  ∃ fusions,
    (load inp).2 = inr fusions
    ∧ (∀ m g1 g2, (m, g1, g2) ∈ fusions →
         m ∈ valid_cell_lines inp ∧ g1 ≠ "" ∧ g2 ≠ "")
    ∧ (∀ g, g ∈ genes out → g ≠ "")
    ∧ (∀ g r C l p,
         geneData out !! g = Some r → partners r !! C = Some l → p ∈ l →
         C ∈ valid_cell_lines inp ∧ p ≠ "").
Proof.
  intros Hmain. pose proof Hmain as (fusions & Hload & Hout)%run_inr.
  simpl in Hout. exists fusions. split; [done|].
  pose proof (load_accepts inp fusions Hload) as Hacc.
  assert (∀ C a b, (C, a, b) ∈ fusions ∨ (C, b, a) ∈ fusions →
                   C ∈ valid_cell_lines inp ∧ a ≠ "" ∧ b ≠ "") as Heither.
  { intros C a b [H | H]; destruct (Hacc _ H) as (? & ? & ?); done. }
  split; [|split].
  - intros m g1 g2 Hin. apply (Hacc _ Hin).
  - intros g Hg. subst out. simpl in Hg.
    apply sorted_elem_of, elem_of_keys in Hg as [cd [Hcd _]%map_lookup_filter_Some].
    destruct (map_choose cd) as (C & ps & Hps).
    { by apply (index_fusions_entries fusions g). }
    destruct (proj1 (proj2 (index_entry_spec fusions g cd Hcd) C)) as [p Hp];
      [by exists ps|].
    by destruct (Heither C g p Hp) as (_ & ? & _).
  - intros g r C l p Hr Hl Hp.
    destruct (geneData_lookup _ _ _ _ _ Hmain Hr)
      as (fusions' & cd & Hload' & Hcd & _ & ->).
    assert (fusions' = fusions) as -> by congruence.
    simpl in Hl. rewrite lookup_fmap in Hl.
    destruct (cd !! C) as [ps|] eqn:Hps; [|done]. injection Hl as <-.
    simpl in Hp. rewrite sorted_elem_of, elem_of_elements in Hp.
    apply (proj1 (index_entry_spec fusions g cd Hcd) C ps p Hps) in Hp.
    by destruct (Heither C g p Hp) as (? & _ & ?).
Qed.

Lemma X12_only_valid_cell_lines_and_named_genes_witness :
  ∃ out,
    (main example_input).2 = inr out
    ∧ ∃ fusions,
        (load example_input).2 = inr fusions
        ∧ (∀ m g1 g2, (m, g1, g2) ∈ fusions →
             m ∈ valid_cell_lines example_input ∧ g1 ≠ "" ∧ g2 ≠ "")
        ∧ (∀ g, g ∈ genes out → g ≠ "")
        ∧ (∀ g r C l p,
             geneData out !! g = Some r → partners r !! C = Some l → p ∈ l →
             C ∈ valid_cell_lines example_input ∧ p ≠ "").
Proof.
  eexists. split; [vm_compute; reflexivity|].
  apply (X12_only_valid_cell_lines_and_named_genes example_input).
  vm_compute. reflexivity.
Defined.

(** ** What a run prints *)

Section Log.
Implicit Types (inp : input) (out : output) (log : list msg).

(** A load that succeeds ends its output with the number of events. *)
Lemma load_log inp log fusions :
  load inp = (log, inr fusions) →
  ∃ pre, log = (pre ++ [MsgFound (length fusions)])%list
         ∧ (MsgUsage ∉ pre) ∧ (MsgErrorNoColumns ∉ pre) ∧ (MsgWritten ∉ pre).
Proof.
  unfold load. case_bool_decide as Hargv; [done|].
  destruct (DictReader.fieldnames (fusion_csv inp)) as [cols|]; [|done].
  unfold detect_columns.
  destruct (detect_model_col cols) as [lm [s|m]] eqn:Hm; [done|].
  assert (lm = [] ∨ ∃ h, lm = [MsgWarnFirstColumn h]) as Hlm.
  { unfold detect_model_col in Hm. destruct (List.find _ cols).
    - injection Hm as <- _. by left.
    - destruct cols as [|h cols']; simpl in Hm; [done|].
      injection Hm as <- _. right. by exists h. }
  simpl. destruct (detect_gene_cols cols) as [[g1 g2] fn].
  destruct (bool_decide (g1 = None) || bool_decide (g2 = None)).
  - destruct fn as [fc|]; [|done]. destruct (PyStr.truthy fc); [|done]. simpl.
    destruct (read_rows _ _ _ _) as [e|fs]; [done|]. simpl.
    intros [= <- <-].
    exists (MsgLoaded (size (valid_cell_lines inp)) :: MsgColumns (Some cols)
            :: lm ++ [MsgParseFrom fc])%list.
    split; [reflexivity|].
    destruct Hlm as [-> | [h ->]]; simpl; repeat split; by not_among.
  - simpl. destruct (read_rows _ _ _ _) as [e|fs]; [done|]. simpl.
    intros [= <- <-].
    exists (MsgLoaded (size (valid_cell_lines inp)) :: MsgColumns (Some cols)
            :: lm ++ [])%list.
    split; [reflexivity|].
    destruct Hlm as [-> | [h ->]]; simpl; repeat split; by not_among.
Qed.

End Log.

(** X13. The numbers a successful run prints agree with what it wrote:
    its output ends with the number of accepted events, the number of
    genes that met the threshold, the confirmation of the write and the
    number of genes written, the two gene numbers both being the length
    of [genes]; before that it printed neither the usage message nor the
    column error. *)
Theorem X13_printed_numbers_match_output inp log out :
  main inp = (log, inr out) →
  ∃ fusions pre,
    (load inp).2 = inr fusions
    ∧ log = (pre ++ [MsgFound (length fusions);
                     MsgGenesAbove MIN_CELL_LINES (length (genes out));
                     MsgWritten;
                     MsgNumGenes (length (genes out));
                     MsgTopGenes])%list
    ∧ (MsgUsage ∉ pre) ∧ (MsgErrorNoColumns ∉ pre) ∧ (MsgWritten ∉ pre)
    ∧ length (genes out) = size (geneData out).
Proof.
  unfold main, run. destruct (load inp) as [l1 [s|fusions]] eqn:Hload; [done|].
  simpl. rewrite build_output_spec. simpl. intros [= <- <-].
  destruct (load_log inp l1 fusions Hload) as (pre & -> & Hpre).
  exists fusions, pre. split; [done|]. simpl.
  rewrite length_sorted, length_fmap, length_map_to_list, map_size_fmap.
  destruct Hpre as (? & ? & ?). by rewrite <- (assoc_L (++)).
Qed.

Lemma X13_printed_numbers_match_output_witness :
  ∃ log out,
    main example_input = (log, inr out)
    ∧ ∃ fusions pre,
        (load example_input).2 = inr fusions
        ∧ log = (pre ++ [MsgFound (length fusions);
                         MsgGenesAbove MIN_CELL_LINES (length (genes out));
                         MsgWritten;
                         MsgNumGenes (length (genes out));
                         MsgTopGenes])%list
        ∧ (MsgUsage ∉ pre) ∧ (MsgErrorNoColumns ∉ pre) ∧ (MsgWritten ∉ pre)
        ∧ length (genes out) = size (geneData out).
Proof.
  eexists _, _. split; [vm_compute; reflexivity|].
  apply (X13_printed_numbers_match_output example_input).
  vm_compute. reflexivity.
Defined.

(** ** Missing fields and the choice of the gene source *)

Section MissingFields.
Implicit Types (c : columns) (valid : gset string) (row : DictReader.row)
  (inp : input).

(** The first row that raises ends the pass with its exception. *)
Lemma read_rows_inl c valid before row after fusions e :
  (∀ r, r ∈ before → ∃ x, extract c valid r = inr x) →
  extract c valid row = inl e →
  read_rows c valid (before ++ row :: after) fusions = inl e.
Proof.
  revert fusions. induction before as [|r before IH]; intros fusions Hbefore Hrow; simpl.
  - by rewrite Hrow.
  - destruct (Hbefore r) as [x ->]; [left|]. simpl.
    apply IH; [|done]. intros r' Hr'. apply Hbefore. by right.
Qed.

Lemma main_row_raises inp c before row after e :
  2 ≤ length (argv inp) →
  (detect_columns (DictReader.fieldnames (fusion_csv inp))).2 = inr c →
  DictReader.rows (fusion_csv inp) = before ++ row :: after →
  (∀ r, r ∈ before → ∃ x, extract c (valid_cell_lines inp) r = inr x) →
  extract c (valid_cell_lines inp) row = inl e →
  (main inp).2 = inl (Uncaught e).
Proof.
  intros Hargv Hc Hrows Hbefore Hrow. unfold main, run, load.
  rewrite bool_decide_false by lia.
  destruct (detect_columns _) as [ld [s|c']]; simpl in Hc; [done|].
  injection Hc as ->. simpl.
  by rewrite Hrows, (read_rows_inl c _ before row after [] e).
Qed.

Lemma extract_missing_identifier c valid row :
  row !! model_col c = Some None → extract c valid row = inl AttributeError.
Proof. intros Hm. unfold extract, getitem; simpl. by rewrite Hm. Qed.

Lemma extract_missing_gene c valid row k1 k2 m :
  gene1_col c = Some k1 → gene2_col c = Some k2 → k1 ≠ "" → k2 ≠ "" →
  row !! model_col c = Some (Some m) → PyStr.strip m ∈ valid →
  row !! k1 = Some None ∨ (is_Some (row !! k1) ∧ row !! k2 = Some None) →
  extract c valid row = inl AttributeError.
Proof.
  intros Hk1 Hk2 Hne1 Hne2 Hm Hvalid Hmissing.
  unfold extract, getitem; simpl. rewrite Hm; simpl.
  rewrite bool_decide_false by (by intros []).
  rewrite Hk1, Hk2 at 1. simpl. apply truthy_true in Hne1, Hne2.
  rewrite Hne1, Hne2. simpl. unfold genes_of_columns, getitem.
  rewrite Hk1, Hk2. simpl.
  destruct Hmissing as [-> | [[[v1|] ->] ->]]; done.
Qed.

Lemma extract_missing_name c valid row fc m :
  truthy (gene1_col c) && truthy (gene2_col c) = false →
  fusion_name_col c = Some fc → fc ≠ "" →
  row !! model_col c = Some (Some m) → PyStr.strip m ∈ valid →
  row !! fc = Some None →
  extract c valid row = inl AttributeError.
Proof.
  intros Hmode Hfc Hne Hm Hvalid Hmissing.
  unfold extract, getitem; simpl. rewrite Hm; simpl.
  rewrite bool_decide_false by (by intros []).
  rewrite Hmode. rewrite Hfc at 1. simpl. apply truthy_true in Hne.
  rewrite Hne. unfold genes_of_name, getitem. rewrite Hfc. simpl.
  by rewrite Hmissing.
Qed.

End MissingFields.

(** X14. Records that are too short are not skipped: a row whose
    identifier field is missing, or whose cell line is valid while a
    gene field (or the fusion name) the script reads is missing, raises
    AttributeError, and the first row that raises ends the run with that
    exception and without output. *)
Theorem X14_missing_field_stops_the_run inp c before row after :
  2 ≤ length (argv inp) →
  (detect_columns (DictReader.fieldnames (fusion_csv inp))).2 = inr c →
  DictReader.rows (fusion_csv inp) = before ++ row :: after →
  (∀ r, r ∈ before → ∃ x, extract c (valid_cell_lines inp) r = inr x) →
  row !! model_col c = Some None
  ∨ (∃ m, row !! model_col c = Some (Some m)
          ∧ PyStr.strip m ∈ valid_cell_lines inp
          ∧ ((∃ k1 k2, gene1_col c = Some k1 ∧ gene2_col c = Some k2
                       ∧ k1 ≠ "" ∧ k2 ≠ ""
                       ∧ (row !! k1 = Some None
                          ∨ (is_Some (row !! k1) ∧ row !! k2 = Some None)))
             ∨ (∃ fc, truthy (gene1_col c) && truthy (gene2_col c) = false
                      ∧ fusion_name_col c = Some fc ∧ fc ≠ ""
                      ∧ row !! fc = Some None))) →
  (main inp).2 = inl (Uncaught AttributeError).
Proof.
  intros Hargv Hc Hrows Hbefore Hmissing.
  apply (main_row_raises inp c before row after); [done..|].
  destruct Hmissing as [Hm | (m & Hm & Hvalid & [Hcols | Hname])].
  - by apply extract_missing_identifier.
  - destruct Hcols as (k1 & k2 & Hk1 & Hk2 & Hne1 & Hne2 & Hmiss).
    by apply (extract_missing_gene c _ row k1 k2 m).
  - destruct Hname as (fc & Hmode & Hfc & Hne & Hmiss).
    by apply (extract_missing_name c _ row fc m).
Qed.

Lemma X14_missing_field_stops_the_run_witness :
  (main short_second_record_input).2 = inl (Uncaught AttributeError).
Proof.
  apply (X14_missing_field_stops_the_run short_second_record_input gene_columns
           [DictReader.make_row ["ModelID"; "LeftGene"; "RightGene"]
              ["ACH-7"]]
           (DictReader.make_row ["ModelID"; "LeftGene"; "RightGene"]
              ["ACH-1"; "BCR"])
           [DictReader.make_row ["ModelID"; "LeftGene"; "RightGene"]
              ["ACH-1"; "BCR"; "ABL1"]]).
  - simpl. lia.
  - vm_compute. reflexivity.
  - vm_compute. reflexivity.
  - intros r Hr. apply list_elem_of_singleton in Hr as ->.
    exists None. vm_compute. reflexivity.
  - right. exists "ACH-1". split; [vm_compute; reflexivity|].
    split; [vm_compute; reflexivity|]. left.
    exists "LeftGene", "RightGene".
    split; [reflexivity|]. split; [reflexivity|].
    split; [discriminate|]. split; [discriminate|]. right.
    split; [exists (Some "BCR"); vm_compute; reflexivity|].
    vm_compute. reflexivity.
Defined.

(** X15. The gene columns take precedence: when both are found the
    fusion-name column is never read, so two rows that agree on the
    identifier and on the two gene fields yield the same result whatever
    their other fields hold. *)
Theorem X15_gene_columns_take_precedence c valid (row row' : DictReader.row) k1 k2 :
  gene1_col c = Some k1 → gene2_col c = Some k2 → k1 ≠ "" → k2 ≠ "" →
  row !! model_col c = row' !! model_col c →
  row !! k1 = row' !! k1 → row !! k2 = row' !! k2 →
  extract c valid row = extract c valid row'.
Proof.
  intros Hk1 Hk2 Hne1 Hne2 Hm H1 H2.
  unfold extract, genes_of_columns, getitem. rewrite Hk1, Hk2. simpl.
  apply truthy_true in Hne1, Hne2. rewrite Hne1, Hne2. simpl.
  by rewrite Hm, H1, H2.
Qed.

Lemma X15_gene_columns_take_precedence_witness :
  let names := ["ModelID"; "FusionName"; "LeftGene"; "RightGene"] in
  let c := {| model_col := "ModelID"; gene1_col := Some "LeftGene";
              gene2_col := Some "RightGene";
              fusion_name_col := Some "FusionName" |} in
  (detect_columns (Some names)).2 = inr c
  ∧ extract c {["ACH-1"]}
      (DictReader.make_row names ["ACH-1"; "BCR--ABL1"; "BCR"; "ABL1"])
    = extract c {["ACH-1"]}
        (DictReader.make_row names ["ACH-1"; "ETV6--RUNX1"; "BCR"; "ABL1"]).
Proof.
  intros names c. split; [vm_compute; reflexivity|].
  apply (X15_gene_columns_take_precedence c _ _ _ "LeftGene" "RightGene").
  - reflexivity.
  - reflexivity.
  - discriminate.
  - discriminate.
  - vm_compute. reflexivity.
  - vm_compute. reflexivity.
  - vm_compute. reflexivity.
Defined.
